(** * gphotos-sync: the local index and the sync driver

    A shallow embedding of [LocalData.py] (the SQLite index) and of
    [GooglePhotosSync.py] (the download driver with its pickledb index),
    and the properties of the specification settled on it.

    Conventions.
    - A SQL table is the list of its rows in rowid order; a [SELECT] is a
      [filter] over it and [fetchone] is the head of the result.
    - A Python [dict] is a [gmap]; the file system is a [gmap] from paths to
      contents together with a [gset] of directories.
    - A method that mutates [self] or the outside world takes the state and
      returns the new one, paired with an [outcome]: [Return v] or
      [Raise e]. *)

From Stdlib Require Import ZArith QArith Qcanon Lia Ascii String DecimalString.
From Equations Require Import Equations.
From stdpp Require Import gmap strings list.

(** ** Exceptions and outcomes *)

Inductive exn :=
  | ValueError (msg : string)
  | TypeError
  | KeyError (key : string)
  | IndexError
  | IntegrityError
  | OSError
  | HttpError (msg : string)
  | NoGooglePhotosFolderError.

Inductive outcome (A : Type) :=
  | Return (a : A)
  | Raise (e : exn).
Arguments Return {A} a.
Arguments Raise {A} e.

Definition raises {A} (o : outcome A) : Prop :=
  match o with Return _ => False | Raise _ => True end.

(** ** os.path *)

Definition startswith_sep (s : string) : bool :=
  match s with
  | String "/" _ => true
  | _ => false
  end.

Fixpoint endswith_sep (s : string) : bool :=
  match s with
  | EmptyString => false
  | String c EmptyString => Ascii.eqb c "/"
  | String _ s' => endswith_sep s'
  end.

(** [os.path.join(a, b)] of [posixpath]: an absolute [b] replaces [a];
    otherwise [b] is appended, after a separator unless [a] is empty or
    ends with one. *)
Definition os_path_join (a b : string) : string :=
  if startswith_sep b then b
  else if String.eqb a "" || endswith_sep a then a +:+ b
  else a +:+ "/" +:+ b.

(** ** LocalData.py *)

Module LocalData.

Definition DB_FILE_NAME : string := "gphotos.sqlite".
Definition BLOCK_SIZE : Z := 10000.

(** [VERSION = 2.3]. The schema version is a float that is only ever
    compared; a finite float is modelled by the rational it denotes, on
    which the comparison is the same. The constant is the double nearest
    to 2.3. *)
Definition VERSION : Qc := Q2Qc (5179139571476070 # 2251799813685248).

(** A date as SQLite holds and compares it: the ISO text
    [YYYY-MM-DD HH:MM:SS], ordered bytewise, which is the order of time. *)
Definition datetime := string.

(** A row of [SyncFiles] ([SyncRow.cols_def]). The date columns may be
    NULL. *)
Record SyncRow := {
  RemoteId : string;
  Url : string;
  Path : string;
  FileName : string;
  OrigFileName : string;
  DuplicateNo : Z;
  MediaType : Z;
  FileSize : Z;
  Checksum : string;
  Description : string;
  ModifyDate : option datetime;
  CreateDate : option datetime;
  SyncDate : option datetime;
  SymLink : Z
}.

Record AlbumRow := {
  AlbumId : string;
  AlbumName : string;
  StartDate : option datetime;
  EndDate : option datetime;
  AlbumSyncDate : option datetime
}.

(** A row of [DriveFolders]; [FolderPath] is the column [Path], NULL until
    [update_drive_folder_path] writes it. *)
Record FolderRow := {
  FolderId : string;
  ParentId : option string;
  FolderName : string;
  FolderPath : option string
}.

Record GlobalsRow := {
  Id : Z;
  Version : Qc;
  LastIndexDrive : option datetime;
  LastIndexPicasa : option datetime
}.

Record Database := {
  SyncFiles : list SyncRow;
  Albums : list AlbumRow;
  AlbumFiles : list (Z * Z);
  DriveFolders : list FolderRow;
  Globals : list GlobalsRow
}.

Definition set_SyncFiles (db : Database) (rows : list SyncRow) : Database :=
  {| SyncFiles := rows; Albums := Albums db; AlbumFiles := AlbumFiles db;
     DriveFolders := DriveFolders db; Globals := Globals db |}.

Definition set_DriveFolders (db : Database) (rows : list FolderRow)
  : Database :=
  {| SyncFiles := SyncFiles db; Albums := Albums db;
     AlbumFiles := AlbumFiles db; DriveFolders := rows;
     Globals := Globals db |}.

(** [cursor.fetchone()] *)
Definition fetchone {A} (rows : list A) : option A := head rows.

(** The aggregate [MAX(col)]: NULL over no rows. *)
Definition sql_max (l : list Z) : option Z :=
  match l with
  | [] => None
  | x :: l' => Some (foldl Z.max x l')
  end.

(** [SELECT ... FROM SyncFiles WHERE RemoteId = ?] *)
Definition select_by_id (db : Database) (remote_id : string)
  : list SyncRow :=
  filter (λ r, RemoteId r = remote_id) (SyncFiles db).

(** [SELECT ... FROM SyncFiles WHERE Path = ? AND OrigFileName = ?] *)
Definition select_group (db : Database) (path name : string)
  : list SyncRow :=
  filter (λ r, Path r = path ∧ OrigFileName r = name) (SyncFiles db).

Definition get_file_by_id (db : Database) (remote_id : string)
  : option SyncRow :=
  fetchone (select_by_id db remote_id).

Definition get_file_by_path (db : Database) (folder name : string)
  : option SyncRow :=
  fetchone (filter (λ r, Path r = folder ∧ FileName r = name)
                   (SyncFiles db)).

(** Modelled from the spec: the table declarations of
    [etc/gphotos_create.sql] are missing. The spec gives [RemoteId] as the
    unique key of [SyncFiles]: an [INSERT] of a second row for a remote id
    violates the constraint. *)
Definition violates_unique_RemoteId (db : Database) (row : SyncRow) : bool :=
  bool_decide (RemoteId row ∈ RemoteId <$> SyncFiles db).

(** [put_file]: a plain [INSERT], refused by SQLite when it violates the key.
    Rows are never deleted, hence [lastrowid] is the number of rows. *)
Definition put_file (db : Database) (row : SyncRow)
  : Database * outcome Z :=
  if violates_unique_RemoteId db row
  then (db, Raise IntegrityError)
  else
    let rows := SyncFiles db ++ [row] in
    (set_SyncFiles db rows, Return (Z.of_nat (length rows))).

(** [file_duplicate_no(file_id, path, name)] *)
Definition file_duplicate_no (db : Database) (file_id path name : string)
  : Z :=
  match fetchone (DuplicateNo <$> select_by_id db file_id) with
  | Some dup => dup
  | None =>
      match sql_max (DuplicateNo <$> select_group db path name) with
      | Some m => (m + 1)%Z
      | None => 0%Z
      end
  end.

(** *** Runs of the resolver *)

(** The rows of [rows] inserted one after the other, a refused insert
    leaving the table as it is. *)
Definition put_files (db : Database) (rows : list SyncRow) : Database :=
  foldl (λ d row, (put_file d row).1) db rows.

(** The row that is stored for a remote item once its number is resolved:
    the item's own columns, filed under [(path, name)] with number [dup]. *)
Definition resolved (row : SyncRow) (path name : string) (dup : Z)
  : SyncRow :=
  {| RemoteId := RemoteId row; Url := Url row; Path := path;
     FileName := FileName row; OrigFileName := name; DuplicateNo := dup;
     MediaType := MediaType row; FileSize := FileSize row;
     Checksum := Checksum row; Description := Description row;
     ModifyDate := ModifyDate row; CreateDate := CreateDate row;
     SyncDate := SyncDate row; SymLink := SymLink row |}.

(** Resolve, then insert, each item of [items] in order: the numbers that
    [file_duplicate_no] gave, what [put_file] answered, and the final
    table. *)
Fixpoint resolve_and_put (db : Database) (path name : string)
    (items : list SyncRow) : Database * list (Z * outcome Z) :=
  match items with
  | [] => (db, [])
  | item :: items =>
      let dup := file_duplicate_no db (RemoteId item) path name in
      let '(db1, rowid) := put_file db (resolved item path name dup) in
      let '(db2, dups) := resolve_and_put db1 path name items in
      (db2, (dup, rowid) :: dups)
  end.

(** The numbers [0 .. k-1]. *)
Definition first_numbers (k : nat) : list Z := Z.of_nat <$> seq 0 k.

(** *** Search *)

Definition ascii_lower (c : ascii) : ascii :=
  let n := nat_of_ascii c in
  if (65 <=? n)%nat && (n <=? 90)%nat then ascii_of_nat (n + 32) else c.

(** The SQLite operator [s LIKE pattern]: [%] stands for any run of
    characters, [_] for one character, and ASCII letters match without
    regard to case. *)
Fixpoint sql_like (pattern s : string) : bool :=
  match pattern with
  | EmptyString =>
      match s with
      | EmptyString => true
      | String _ _ => false
      end
  | String "%" p =>
      (fix any (t : string) : bool :=
         sql_like p t ||
         match t with
         | EmptyString => false
         | String _ t' => any t'
         end) s
  | String "_" p =>
      match s with
      | EmptyString => false
      | String _ s' => sql_like p s'
      end
  | String c p =>
      match s with
      | EmptyString => false
      | String d s' => Ascii.eqb (ascii_lower c) (ascii_lower d) && sql_like p s'
      end
  end.

(** The text of an integer column, as [LIKE] sees it. *)
Definition sql_text (n : Z) : string := NilZero.string_of_int (Z.to_int n).

(** [col >= ?] and [col <= ?] on a date column. A NULL column makes the
    comparison NULL; the [WHERE] clauses below combine comparisons with
    [AND] and [OR] only, where NULL selects the same rows as false. *)
Definition date_ge (col : option datetime) (d : datetime) : bool :=
  match col with
  | Some c => String.leb d c
  | None => false
  end.

Definition date_le (col : option datetime) (d : datetime) : bool :=
  match col with
  | Some c => String.leb c d
  | None => false
  end.

(** The [WHERE] clause that [get_files_by_search] assembles: the two [LIKE]
    tests, then one date clause for each date that was given. *)
Definition search_where (drive_id media_type : string)
    (start_date end_date : option datetime) (r : SyncRow) : bool :=
  sql_like drive_id (RemoteId r)
  && sql_like media_type (sql_text (MediaType r))
  && match start_date with
     | Some d => date_ge (ModifyDate r) d || date_ge (CreateDate r) d
     | None => true
     end
  && match end_date with
     | Some d => date_le (ModifyDate r) d
     | None => true
     end.

(** [cursor.fetchmany(size)]: the next rows and the rows left. *)
Definition fetchmany {A} (size : Z) (cursor : list A) : list A * list A :=
  (take (Z.to_nat size) cursor, drop (Z.to_nat size) cursor).

Definition inspect {A} (a : A) : {b : A | a = b} := exist _ a eq_refl.

(** The loop of the generator: fetch a block, stop when it is empty, else
    yield its records and go on. *)
Equations? yield_blocks (cursor : list SyncRow) : list SyncRow
  by wf (length cursor) lt :=
  yield_blocks cursor with inspect (fetchmany BLOCK_SIZE cursor) := {
    | exist _ ([], _) _ => [];
    | exist _ (record :: records, rest) Hfetch =>
        (record :: records) ++ yield_blocks rest }.
Proof.
  unfold fetchmany in Hfetch. injection Hfetch as Htake Hdrop. subst rest.
  rewrite length_drop.
  destruct cursor as [|c cursor]; [by destruct (Z.to_nat BLOCK_SIZE)|].
  destruct (Z.to_nat BLOCK_SIZE); [done|]. simpl. lia.
Qed.

(** [get_files_by_search], the records it yields when iterated to the end. *)
Definition get_files_by_search (db : Database) (drive_id media_type : string)
    (start_date end_date : option datetime) : list SyncRow :=
  yield_blocks
    (filter (λ r, search_where drive_id media_type start_date end_date r)
            (SyncFiles db)).

(** What the specification says of a date column: it holds a date that is
    on or after, or on or before, the given one. *)
Definition on_or_after (col : option datetime) (d : datetime) : Prop :=
  ∃ c, col = Some c ∧ String.le d c.

Definition on_or_before (col : option datetime) (d : datetime) : Prop :=
  ∃ c, col = Some c ∧ String.le c d.

(** A record matches the id and type patterns of a search. *)
Definition matches_patterns (drive_id media_type : string) (r : SyncRow)
  : Prop :=
  sql_like drive_id (RemoteId r) ∧ sql_like media_type (sql_text (MediaType r)).

(** *** Drive folders *)

(** [get_drive_folder_path]: the [Path] of the row, which is [None] both
    for no row and for a row whose [Path] is NULL. *)
Definition get_drive_folder_path (db : Database) (folder_id : string)
  : option string :=
  match fetchone (filter (λ r, FolderId r = folder_id) (DriveFolders db)) with
  | Some result => FolderPath result
  | None => None
  end.

(** Modelled from the spec: the table declarations of
    [etc/gphotos_create.sql] are missing. The spec gives [FolderId] as the
    unique key of [DriveFolders]: [INSERT OR REPLACE] deletes the row that
    holds the key before it inserts. *)
Definition delete_conflicting (drive_id : string) (rows : list FolderRow)
  : list FolderRow :=
  filter (λ r, FolderId r ≠ drive_id) rows.

(** [put_drive_folder(drive_id, parent_id, date)]: the statement names the
    columns [FolderId], [ParentId] and [FolderName]; the column [Path], not
    named, is NULL in the new row. *)
Definition put_drive_folder (db : Database) (drive_id : string)
    (parent_id : option string) (date : string) : Database :=
  set_DriveFolders db
    (delete_conflicting drive_id (DriveFolders db) ++
     [ {| FolderId := drive_id; ParentId := parent_id; FolderName := date;
          FolderPath := None |} ]).

(** [ParentId = ?]: never true when either side is NULL. *)
Definition parent_is (parent_id : option string) (r : FolderRow) : bool :=
  match ParentId r, parent_id with
  | Some p, Some q => bool_decide (p = q)
  | _, _ => false
  end.

Definition set_FolderPath (path : string) (r : FolderRow) : FolderRow :=
  {| FolderId := FolderId r; ParentId := ParentId r;
     FolderName := FolderName r; FolderPath := Some path |}.

(** [update_drive_folder_path(path, parent_id)], iterated to the end (the
    body of a generator runs only once it is iterated): the [UPDATE] of
    every row whose parent is [parent_id], then those rows as pairs. *)
Definition update_drive_folder_path (db : Database) (path : string)
    (parent_id : option string) : Database * list (string * string) :=
  let rows :=
    (λ r, if parent_is parent_id r then set_FolderPath path r else r)
      <$> DriveFolders db in
  (set_DriveFolders db rows,
   (λ r, (FolderId r, FolderName r))
     <$> filter (λ r, parent_is parent_id r) rows).

(** *** Opening the index and the schema gate *)

(** The disk as the index sees it: directories, and SQLite files with the
    committed content of each. *)
Record FileSystem := {
  dirs : gset string;
  files : gmap string Database
}.

Definition set_files (fs : FileSystem) (m : gmap string Database)
  : FileSystem :=
  {| dirs := dirs fs; files := m |}.

(** The object: its file name and what its connection sees (the file's
    content and the writes not yet committed). *)
Record Self := {
  file_name : string;
  con : Database
}.

(** A SQLite file just created holds no rows. *)
Definition no_rows : Database :=
  {| SyncFiles := []; Albums := []; AlbumFiles := []; DriveFolders := [];
     Globals := [] |}.

(** Modelled from the spec: the script [etc/gphotos_create.sql] that
    [clean_db] runs is missing. The spec has it initialize an empty schema
    at the supported version: no rows but the one of [Globals], which
    carries [VERSION] and no scan dates. *)
Definition gphotos_create : Database :=
  {| SyncFiles := []; Albums := []; AlbumFiles := []; DriveFolders := [];
     Globals := [ {| Id := 1; Version := VERSION; LastIndexDrive := None;
                     LastIndexPicasa := None |} ] |}.

(** [lite.connect(file_name)] *)
Definition connect (name : string) (fs : FileSystem) : Self :=
  {| file_name := name; con := default no_rows (files fs !! name) |}.

(** [self.con.commit()] *)
Definition commit (self : Self) (fs : FileSystem) : FileSystem :=
  set_files fs (<[file_name self := con self]> (files fs)).

(** [os.rename(src, dst)] on POSIX: [dst] is replaced when it exists. *)
Definition os_rename (src dst : string) (fs : FileSystem)
  : outcome FileSystem :=
  match files fs !! src with
  | Some content =>
      Return (set_files fs (<[dst := content]> (delete src (files fs))))
  | None => Raise OSError
  end.

(** [clean_db]: [executescript] commits and runs the script, each statement
    written to the file at once. *)
Definition clean_db (self : Self) (fs : FileSystem) : Self * FileSystem :=
  let self' := {| file_name := file_name self; con := gphotos_create |} in
  (self', commit self' fs).

(** The version that the store carries: [Version] of the row [Id IS 1]. *)
Definition stored_version (db : Database) : option Qc :=
  Version <$> fetchone (filter (λ g, Id g = 1%Z) (Globals db)).

(** [check_schema_version]: the version of the row [Id IS 1] of [Globals]
    against [VERSION]. [fetchone()[0]] on no row is a [TypeError]. *)
Definition check_schema_version (self : Self) (fs : FileSystem)
  : Self * FileSystem * outcome unit :=
  match fetchone (filter (λ g, Id g = 1%Z) (Globals (con self))) with
  | None => (self, fs, Raise TypeError)
  | Some row =>
      let version := Version row in
      if decide (VERSION < version)%Qc then
        (self, fs,
         Raise (ValueError "Database version is newer than gphotos-sync"))
      else if decide (version < VERSION)%Qc then
        let fs1 := commit self fs in
        match os_rename (file_name self) (file_name self +:+ ".previous")
                        fs1 with
        | Raise e => (self, fs1, Raise e)
        | Return fs2 =>
            let '(self', fs3) := clean_db (connect (file_name self) fs2) fs2 in
            (self', fs3, Return tt)
        end
      else (self, fs, Return tt)
  end.

Definition os_path_exists (name : string) (fs : FileSystem) : bool :=
  bool_decide (name ∈ dirs fs) || bool_decide (is_Some (files fs !! name)).

Definition os_makedirs (name : string) (fs : FileSystem) : FileSystem :=
  {| dirs := {[name]} ∪ dirs fs; files := files fs |}.

(** [LocalData(root_folder, flush_index)] *)
Definition init (root_folder : string) (flush_index : bool) (fs : FileSystem)
  : Self * FileSystem * outcome unit :=
  let name := os_path_join root_folder DB_FILE_NAME in
  let fs :=
    if os_path_exists root_folder fs then fs else os_makedirs root_folder fs in
  let clean := negb (os_path_exists name fs) || flush_index in
  let self := connect name fs in
  let '(self, fs) := if clean then clean_db self fs else (self, fs) in
  check_schema_version self fs.


(** *** Scan dates *)

Definition set_Globals (db : Database) (rows : list GlobalsRow) : Database :=
  {| SyncFiles := SyncFiles db; Albums := Albums db;
     AlbumFiles := AlbumFiles db; DriveFolders := DriveFolders db;
     Globals := rows |}.

(** [UPDATE Globals SET ... WHERE Id IS 1] *)
Definition update_globals (f : GlobalsRow → GlobalsRow) (db : Database)
  : Database :=
  set_Globals db
    ((λ g, if decide (Id g = 1%Z) then f g else g) <$> Globals db).

Definition set_LastIndexDrive (d : string) (g : GlobalsRow) : GlobalsRow :=
  {| Id := Id g; Version := Version g; LastIndexDrive := Some d;
     LastIndexPicasa := LastIndexPicasa g |}.

Definition set_LastIndexPicasa (d : string) (g : GlobalsRow) : GlobalsRow :=
  {| Id := Id g; Version := Version g; LastIndexDrive := LastIndexDrive g;
     LastIndexPicasa := Some d |}.

(** Python's truth value of a text column: false for NULL and for the
    empty string. *)
Definition text_truthy (col : option string) : bool :=
  match col with
  | Some s => negb (String.eqb s "")
  | None => false
  end.

Section ScanDates.

(** The module [Utils] is missing: the Python dates and its two
    conversions are taken as they come. *)
Variable pydate : Type.
Variable date_to_string : pydate → string.
Variable string_to_date : string → pydate.

(** [set_scan_dates(picasa_last_date, drive_last_date)]: a date that is
    not given leaves its column alone. *)
Definition set_scan_dates (db : Database)
    (picasa_last_date drive_last_date : option pydate) : Database :=
  let db :=
    match drive_last_date with
    | Some d => update_globals (set_LastIndexDrive (date_to_string d)) db
    | None => db
    end in
  match picasa_last_date with
  | Some d => update_globals (set_LastIndexPicasa (date_to_string d)) db
  | None => db
  end.

(** [get_scan_dates()]: the pair (drive, picasa). Subscripting the result
    of [fetchone()] on no row is a [TypeError]. *)
Definition get_scan_dates (db : Database)
  : outcome (option pydate * option pydate) :=
  match fetchone (filter (λ g, Id g = 1%Z) (Globals db)) with
  | None => Raise TypeError
  | Some res =>
      let d := LastIndexDrive res in
      let p := LastIndexPicasa res in
      Return
        (if text_truthy d then string_to_date <$> d else None,
         if text_truthy p then string_to_date <$> p else None)
  end.

End ScanDates.

(** *** Finding rows by name, date and size *)

(** [col LIKE ?] on a column that may be NULL: NULL is not selected. *)
Definition like_nullable (pattern : string) (col : option string) : bool :=
  match col with
  | Some s => sql_like pattern s
  | None => false
  end.

(** The rows of [SyncFiles] with their [Id]: rows are never deleted, so the
    n-th row inserted has rowid n (the [lastrowid] of [put_file]). *)
Definition with_rowid (rows : list SyncRow) : list (Z * SyncRow) :=
  imap (λ i r, (Z.of_nat (S i), r)) rows.

(** The [WHERE] clause of [find_file_ids_dates]: [use_create] chooses the
    date column that the pattern is matched against. *)
Definition find_where (filename exif_date size : string) (use_create : bool)
    (r : SyncRow) : Prop :=
  sql_like filename (FileName r)
  ∧ like_nullable exif_date (if use_create then CreateDate r else ModifyDate r)
  ∧ sql_like size (sql_text (FileSize r)).

(** [find_file_ids_dates(filename, exif_date, size, use_create)]: [None]
    rather than an empty list. *)
Definition find_file_ids_dates (db : Database)
    (filename exif_date size : string) (use_create : bool)
  : option (list (Z * option datetime)) :=
  let res :=
    filter (λ key : Z * SyncRow,
              find_where filename exif_date size use_create key.2)
           (with_rowid (SyncFiles db)) in
  if bool_decide (length res = 0) then None
  else Some ((λ key : Z * SyncRow, (key.1, CreateDate key.2)) <$> res).

(** *** Saving *)

(** [store()]: commit. *)
Definition store (self : Self) (fs : FileSystem) : FileSystem :=
  commit self fs.

(** *** Example stores *)

(** A photo taken on 2021-01-01 and uploaded on 2021-06-01. *)
Definition photo (remote_id : string) (dup : Z) : SyncRow :=
  {| RemoteId := remote_id; Url := "https://drive.example/photo";
     Path := "/photos/2021"; FileName := "IMG_0001.jpg";
     OrigFileName := "IMG_0001.jpg"; DuplicateNo := dup; MediaType := 0;
     FileSize := 1024; Checksum := "c0ffee"; Description := "";
     ModifyDate := Some "2021-01-01 00:00:00";
     CreateDate := Some "2021-06-01 00:00:00";
     SyncDate := None; SymLink := 0 |}.

(** A store at the supported version that holds one photo. *)
Definition one_photo : Database := set_SyncFiles gphotos_create [photo "id-1" 4].

(** A store that holds two photos of one group, the second with a number
    of its own. *)
Definition two_photos : Database :=
  set_SyncFiles gphotos_create [photo "id-0" 0; photo "id-1" 4].

(** A store of one photo whose schema carries the version [v]. *)
Definition schema_of_version (v : Qc) : Database :=
  {| SyncFiles := [photo "id-1" 0]; Albums := []; AlbumFiles := [];
     DriveFolders := [];
     Globals := [ {| Id := 1; Version := v; LastIndexDrive := None;
                     LastIndexPicasa := None |} ] |}.

Definition opened (db : Database) : Self :=
  {| file_name := "/photos/gphotos.sqlite"; con := db |}.

Definition disk_with (db : Database) : FileSystem :=
  {| dirs := {["/photos"]}; files := {["/photos/gphotos.sqlite" := db]} |}.

End LocalData.

(** ** GooglePhotosSync.py *)

Module GooglePhotosSync.

Definition dquote : string := String "034" EmptyString.

Definition GOOGLE_PHOTO_FOLDER_QUERY : string :=
  "title = " +:+ dquote +:+ "Google Photos" +:+ dquote +:+ " and "
  +:+ dquote +:+ "root" +:+ dquote +:+ " in parents and trashed=false".

Definition bytes := list Byte.byte.

(** Modelled from the spec: [GooglePhotosMedia.py] is missing. Of a media
    object the driver reads [id], [description], [checksum] and [filename],
    and it reads and bumps [duplicate_number]. By the spec the file name
    embeds the duplicate number in the original name; [name_with] is that
    embedding, carried by the object. *)
Record Media := {
  id : string;
  description : string;
  checksum : string;
  duplicate_number : Z;
  name_with : Z → string
}.

(** The property [media.filename]. *)
Definition filename (media : Media) : string :=
  name_with media (duplicate_number media).

Definition set_duplicate_number (media : Media) (n : Z) : Media :=
  {| id := id media; description := description media;
     checksum := checksum media; duplicate_number := n;
     name_with := name_with media |}.

(** A record of the pickledb store, and a Drive file resource: dicts. *)
Abbreviation record := (gmap string string).

(** What one download does, decided by the remote side: the chunks that
    [next_chunk] delivers, and whether the last call reports [done] or an
    exception ends the transfer. *)
Inductive transfer :=
  | Completes (chunks : list bytes)
  | Fails (chunks : list bytes) (e : exn).

(** The answer to a [ListFile(...).GetList()] query. *)
Inductive reply :=
  | Results (l : list record)
  | Failure (msg : string).

(** The Drive service: the answer to each query, and the course of the
    n-th download that is started, for each file id. *)
Record Drive := {
  ListFile : string → reply;
  get_media : nat → string → transfer
}.

(** The state the driver works on: the local disk, the pickledb store
    [self.db] (kept in memory until [dump]), the number of downloads started
    and of progress updates made. On the disk a name is a whole path, and a
    file operation raises [OSError] when what is under its names stands in
    its way. *)
Record World := {
  dirs : gset string;
  files : gmap string bytes;
  db : gmap string record;
  requests : nat;
  progress : nat
}.

Definition set_dirs (w : World) (d : gset string) : World :=
  {| dirs := d; files := files w; db := db w; requests := requests w;
     progress := progress w |}.

Definition set_files (w : World) (f : gmap string bytes) : World :=
  {| dirs := dirs w; files := f; db := db w; requests := requests w;
     progress := progress w |}.

Definition set_db (w : World) (d : gmap string record) : World :=
  {| dirs := dirs w; files := files w; db := d; requests := requests w;
     progress := progress w |}.

(** *** Computations on the world that may raise *)

Definition M (A : Type) : Type := World → World * outcome A.

Definition ret {A} (a : A) : M A := λ w, (w, Return a).

Definition throw {A} (e : exn) : M A := λ w, (w, Raise e).

Definition bind {A B} (m : M A) (k : A → M B) : M B :=
  λ w, match m w with
       | (w', Return a) => k a w'
       | (w', Raise e) => (w', Raise e)
       end.

(** [try: m except Exception as e: handler e] *)
Definition try_except {A} (m : M A) (handler : exn → M A) : M A :=
  λ w, match m w with
       | (w', Return a) => (w', Return a)
       | (w', Raise e) => handler e w'
       end.

Definition modify (f : World → World) : M unit := λ w, (f w, Return tt).

Notation "'let*' x ':=' m 'in' k" := (bind m (λ x, k))
  (at level 10, x pattern, m at level 100, k at level 200).
Notation "m ;; k" := (bind m (λ _, k))
  (at level 100, k at level 200, right associativity).

(** *** pickledb *)

(** [db.get(key)]: the value, or a falsy value for a key not there. *)
Definition db_get (key : string) (w : World) : option record := db w !! key.

(** Python's truth value of what [db.get] returned: false for a missing key
    and for an empty dict. *)
Definition truthy (value : option record) : bool :=
  match value with
  | Some r => negb (bool_decide (r = ∅))
  | None => false
  end.

(** [db.dcreate(name)]: [db[name] = {}] *)
Definition dcreate (name : string) : M unit :=
  modify (λ w, set_db w (<[name := ∅]> (db w))).

(** [db.dadd(name, (key, value))]: [db[name][key] = value] *)
Definition dadd (name : string) (pair : string * string) : M unit :=
  λ w, match db w !! name with
       | Some r =>
           (set_db w (<[name := <[pair.1 := pair.2]> r]> (db w)), Return tt)
       | None => (w, Raise (KeyError name))
       end.

(** *** The remote root *)

(** [l[0]] and [d[key]] *)
Definition first_item (l : list record) : outcome record :=
  match l with
  | x :: _ => Return x
  | [] => Raise IndexError
  end.

Definition getitem (d : record) (key : string) : outcome string :=
  match d !! key with
  | Some v => Return v
  | None => Raise (KeyError key)
  end.

(** The id of the first result of a query, when the query has a first
    result and that one has an id. *)
Definition first_result_id (query_results : list record) : option string :=
  item ← head query_results; item !! "id".

(** [get_photos_folder_id]: the query is made outside the [try], and the
    bare [except] turns whatever the subscripts raise into
    [NoGooglePhotosFolderError]. *)
Definition get_photos_folder_id (drive : Drive) : outcome string :=
  match ListFile drive GOOGLE_PHOTO_FOLDER_QUERY with
  | Failure msg => Raise (HttpError msg)
  | Results query_results =>
      match first_item query_results with
      | Return item =>
          match getitem item "id" with
          | Return i => Return i
          | Raise _ => Raise NoGooglePhotosFolderError
          end
      | Raise _ => Raise NoGooglePhotosFolderError
      end
  end.

(** *** The existence checks *)

Definition bump (media : Media) : Media :=
  set_duplicate_number media (duplicate_number media + 1).

(** [is_indexed(path, media)]. The recursion of the source is not
    structural: [fuel] bounds its depth and [None] is "out of fuel". The
    media object is mutated, so it is returned with the answer. *)
Fixpoint is_indexed (fuel : nat) (w : World) (path : string) (media : Media)
  : option (Media * outcome bool) :=
  match fuel with
  | O => None
  | S fuel =>
      let local_filename := os_path_join path (filename media) in
      let file_record := db_get local_filename w in
      if truthy file_record then
        match getitem (default ∅ file_record) "id" with
        | Raise e => Some (media, Raise e)
        | Return i =>
            if bool_decide (i = id media) then Some (media, Return true)
            else is_indexed fuel w path (bump media)
        end
      else Some (media, Return false)
  end.

Definition os_path_isfile (name : string) (w : World) : bool :=
  bool_decide (is_Some (files w !! name)).

(** [has_local_version(path, media)], with fuel as above. [and] evaluates
    the subscript only for a truthy record. *)
Fixpoint has_local_version (fuel : nat) (w : World) (path : string)
    (media : Media) : option (Media * outcome bool) :=
  match fuel with
  | O => None
  | S fuel =>
      let local_filename := os_path_join path (filename media) in
      if os_path_isfile local_filename w then
        let media_record := db_get (id media) w in
        if truthy media_record then
          match getitem (default ∅ media_record) "filename" with
          | Raise e => Some (media, Raise e)
          | Return f =>
              if bool_decide (f = local_filename)
              then Some (media, Return true)
              else has_local_version fuel w path (bump media)
          end
        else has_local_version fuel w path (bump media)
      else Some (media, Return false)
  end.

(** *** Download *)

Definition os_path_isdir (name : string) (w : World) : bool :=
  bool_decide (name ∈ dirs w).

(** The folders above a name, which [os.makedirs] makes on its way: what
    stands before each separator of the name, unless that is empty. The
    name is taken as written. *)
Fixpoint folders_above_from (before name : string) : list string :=
  match name with
  | EmptyString => []
  | String c rest =>
      (if Ascii.eqb c "/" && negb (String.eqb before "") then [before]
       else [])
      ++ folders_above_from (before +:+ String c EmptyString) rest
  end.

Definition folders_above (name : string) : list string :=
  folders_above_from "" name.

(** [os.makedirs(name)]: the directory is made, with the folders above
    it. It raises an [OSError] when the name is empty
    ([FileNotFoundError]), when it is taken, by a directory or by a file
    ([FileExistsError]), and when a folder above it is a file
    ([NotADirectoryError]). *)
Definition os_makedirs (name : string) : M unit :=
  λ w, if String.eqb name "" || os_path_isdir name w || os_path_isfile name w
          || existsb (λ above, os_path_isfile above w) (folders_above name)
       then (w, Raise OSError)
       else (set_dirs w (list_to_set (name :: folders_above name) ∪ dirs w),
             Return tt).

(** [io.open(name, 'bw')]: the file is created, or cut to nothing;
    [IsADirectoryError], an [OSError], when the name is a directory. *)
Definition open_bw (name : string) : M unit :=
  λ w, if os_path_isdir name w then (w, Raise OSError)
       else (set_files w (<[name := []]> (files w)), Return tt).

(** One chunk written to the open file, and the progress update. *)
Definition write_chunk (name : string) (progress_handler : bool)
    (chunk : bytes) : M unit :=
  modify (λ w,
    {| dirs := dirs w;
       files := <[name := default [] (files w !! name) ++ chunk]> (files w);
       db := db w; requests := requests w;
       progress := if progress_handler then S (progress w) else progress w |}).

Fixpoint write_chunks (name : string) (progress_handler : bool)
    (chunks : list bytes) : M unit :=
  match chunks with
  | [] => ret tt
  | chunk :: chunks =>
      write_chunk name progress_handler chunk ;;
      write_chunks name progress_handler chunks
  end.

(** The request of [get_media(fileId=media.id)]: the next download. *)
Definition start_download (drive : Drive) (file_id : string) : M transfer :=
  λ w, ({| dirs := dirs w; files := files w; db := db w;
           requests := S (requests w); progress := progress w |},
        Return (get_media drive (requests w) file_id)).

(** The body of the [try]: open the temporary file, then [next_chunk]
    until done. *)
Definition transfer_to (drive : Drive) (progress_handler : bool)
    (media : Media) (temp_filename : string) : M unit :=
  open_bw temp_filename ;;
  let* t := start_download drive (id media) in
  match t with
  | Completes chunks => write_chunks temp_filename progress_handler chunks
  | Fails chunks e =>
      write_chunks temp_filename progress_handler chunks ;; throw e
  end.

Definition chunks_of (t : transfer) : list bytes :=
  match t with
  | Completes chunks => chunks
  | Fails chunks _ => chunks
  end.

Definition completes (t : transfer) : bool :=
  match t with
  | Completes _ => true
  | Fails _ _ => false
  end.

(** The world after one transfer into the temporary file: the file holds
    what this transfer delivered and nothing else. *)
Definition after_transfer (progress_handler : bool) (temp_filename : string)
    (t : transfer) (w : World) : World :=
  {| dirs := dirs w;
     files := <[temp_filename := concat (chunks_of t)]> (files w);
     db := db w; requests := S (requests w);
     progress := if progress_handler
                 then progress w + length (chunks_of t) else progress w |}.

(** [os.rename(src, dst)] on POSIX: a file under [dst] is replaced;
    [FileNotFoundError] when there is no [src] and [IsADirectoryError] when
    [dst] is a directory, both an [OSError]. *)
Definition os_rename (src dst : string) : M unit :=
  λ w, match files w !! src with
       | None => (w, Raise OSError)
       | Some content =>
           if os_path_isdir dst w then (w, Raise OSError)
           else (set_files w (<[dst := content]> (delete src (files w))),
                 Return tt)
       end.

(** [for retry in range(n)]: an exception in the body is printed and the
    loop continues; a body that ends is followed by the rename, which is
    outside the [try], and [break]. When the range is exhausted the loop
    just ends. *)
Fixpoint retry_loop (n : nat) (drive : Drive) (progress_handler : bool)
    (media : Media) (temp_filename target_filename : string) : M unit :=
  match n with
  | O => ret tt
  | S n =>
      let* done :=
        try_except
          (transfer_to drive progress_handler media temp_filename ;; ret true)
          (λ _, ret false) in
      if (done : bool) then os_rename temp_filename target_filename
      else retry_loop n drive progress_handler media temp_filename
             target_filename
  end.

(** [download_media(media, path, progress_handler)], with [index_only] for
    [self.args.index_only]. *)
Definition download_media (drive : Drive) (index_only : bool) (media : Media)
    (path : string) (progress_handler : bool) : M string :=
  (λ w, if os_path_isdir path w then ret tt w else os_makedirs path w) ;;
  let target_filename := os_path_join path (filename media) in
  let temp_filename := os_path_join path ".temp-gphotos" in
  (if index_only then ret tt
   else retry_loop 10 drive progress_handler media temp_filename
          target_filename) ;;
  dcreate (id media) ;;
  dadd (id media) ("filename", target_filename) ;;
  dadd (id media) ("description", description media) ;;
  dadd (id media) ("checksum", checksum media) ;;
  dcreate target_filename ;;
  dadd target_filename ("id", id media) ;;
  ret target_filename.

(** Whether the first step of [download_media] gets through: [path] is a
    directory, or it can be made one: it is a name, and no file is under it
    or under a folder above it. *)
Definition folder_ready (path : string) (w : World) : bool :=
  os_path_isdir path w
  || negb (String.eqb path "") && negb (os_path_isfile path w)
     && forallb (λ above, negb (os_path_isfile above w)) (folders_above path).

(** The world once the folder [path] is there. *)
Definition with_folder (path : string) (w : World) : World :=
  if os_path_isdir path w then w
  else set_dirs w (list_to_set (path :: folders_above path) ∪ dirs w).

(** *** Listing the remote side *)

Definition MEDIA_QUERY (folder_id : string) : string :=
  dquote +:+ folder_id +:+ dquote +:+ " in parents and trashed=false ".

Definition FOLDER_QUERY (title parent : string) : string :=
  "title = " +:+ dquote +:+ title +:+ dquote +:+ " and " +:+ dquote
  +:+ parent +:+ dquote +:+ " in parents and trashed=false"
  +:+ " and mimeType=" +:+ dquote +:+ "application/vnd.google-apps.folder"
  +:+ dquote.

Definition AFTER_QUERY (date : string) : string :=
  " and modifiedDate >= '" +:+ date +:+ "T00:00:00'".

Definition BEFORE_QUERY (date : string) : string :=
  " and modifiedDate <= '" +:+ date +:+ "T00:00:00'".

(** The command line arguments that the listing reads; a date that was not
    given is [None]. *)
Record Args := {
  start_date : option string;
  end_date : option string;
  include_video : bool
}.

(** [add_date_filter(query_params)], on the entry ['q'] of the dict, the
    one entry it touches. *)
Definition add_date_filter (args : Args) (q : string) : string :=
  if LocalData.text_truthy (start_date args)
  then q +:+ AFTER_QUERY (default "" (start_date args))
  else if LocalData.text_truthy (end_date args)
  then q +:+ BEFORE_QUERY (default "" (end_date args))
  else q.

(** Iterating [ListFile(query_params)] gives the pages of results, one
    after the other: the pages for each query string. *)
Abbreviation Listing := (string → list (list record)).

(** The loop of [get_remote_medias] over the files of the pages: what is
    yielded, and the exception that ended the loop if one did. The
    constructor [GooglePhotosMedia], which is missing, is [make]. *)
Fixpoint yield_medias (include_video : bool) (make : record → Media)
    (drive_files : list record) : list Media * option exn :=
  match drive_files with
  | [] => ([], None)
  | drive_file :: rest =>
      if include_video then
        let '(medias, e) := yield_medias include_video make rest in
        (make drive_file :: medias, e)
      else
        match getitem drive_file "mimeType" with
        | Raise e => ([], Some e)
        | Return mime =>
            if String.prefix "video/" mime
            then yield_medias include_video make rest
            else
              let '(medias, e) := yield_medias include_video make rest in
              (make drive_file :: medias, e)
        end
  end.

(** [get_remote_medias(folder_id)], iterated to the end. *)
Definition get_remote_medias (listing : Listing) (args : Args)
    (make : record → Media) (folder_id : string) : list Media * option exn :=
  yield_medias (include_video args) make
    (concat (listing (add_date_filter args (MEDIA_QUERY folder_id)))).

(** ['%s' % v] for a string or [None]. *)
Definition py_str (v : option string) : string := default "None" v.

(** [s.split('/', 1)]: the text before the first separator, and the text
    after it when there is one. *)
Fixpoint split1 (s : string) : string * option string :=
  match s with
  | EmptyString => (EmptyString, None)
  | String c s' =>
      if Ascii.eqb c "/" then (EmptyString, Some s')
      else let '(part, rest) := split1 s' in (String c part, rest)
  end.

(** [for results in ListFile(...): this_folder_id = results[0]["id"]] *)
Fixpoint first_ids (pages : list (list record))
    (this_folder_id : option string) : outcome (option string) :=
  match pages with
  | [] => Return this_folder_id
  | results :: pages =>
      match first_item results with
      | Raise e => Raise e
      | Return item =>
          match getitem item "id" with
          | Raise e => Raise e
          | Return i => first_ids pages (Some i)
          end
      end
  end.

Lemma split1_shorter (s part rest : string) :
  split1 s = (part, Some rest) → String.length rest < String.length s.
Proof.
  revert part. induction s as [|c s IH]; intros part; simpl; [done|].
  destruct (Ascii.eqb c "/").
  - intros [= _ <-]. lia.
  - destruct (split1 s) as [part' [rest'|]]; [|done].
    intros [= _ <-]. specialize (IH part' eq_refl). lia.
Qed.

(** [get_remote_folder(parent_id, folder_name)] *)
Equations? get_remote_folder (listing : Listing) (parent_id : option string)
    (folder_name : string) : outcome (option string)
  by wf (String.length folder_name) lt :=
  get_remote_folder listing parent_id folder_name
    with LocalData.inspect (split1 folder_name) := {
    | exist _ (part, None) _ =>
        first_ids (listing (FOLDER_QUERY part (py_str parent_id))) None;
    | exist _ (part, Some rest) Hparts
        with first_ids (listing (FOLDER_QUERY part (py_str parent_id)))
               None := {
        | Raise e => Raise e;
        | Return this_folder_id =>
            get_remote_folder listing this_folder_id rest } }.
Proof. by eapply split1_shorter. Qed.

(** Whether a folder name holds a separator. *)
Fixpoint has_sep (s : string) : bool :=
  match s with
  | EmptyString => false
  | String c s' => Ascii.eqb c "/" || has_sep s'
  end.

(** The index once the two entries of an item are written: the forward
    entry under the item's id, then the reverse entry under the target
    name. *)
Definition indexed (media : Media) (target_filename : string)
    (d : gmap string record) : gmap string record :=
  <[target_filename := {["id" := id media]}]>
    (<[id media :=
         <["checksum" := checksum media]>
           (<["description" := description media]>
              {["filename" := target_filename]})]> d).

(** The local file name of a media under [path], were its duplicate number
    [n]. *)
Definition local_name (path : string) (media : Media) (n : Z) : string :=
  os_path_join path (name_with media n).

(** Whether a Drive file is a video by its mime type. *)
Definition is_video (drive_file : record) : bool :=
  match drive_file !! "mimeType" with
  | Some mime => String.prefix "video/" mime
  | None => false
  end.

(** *** Example worlds *)

(** A name that embeds the duplicate number [n] as [n] leading marks. *)
Fixpoint marked (n : nat) (name : string) : string :=
  match n with
  | O => name
  | S n => String "_" (marked n name)
  end.

Definition a_photo : Media :=
  {| id := "id-1"; description := "a photo"; checksum := "c0ffee";
     duplicate_number := 0;
     name_with := λ d, marked (Z.to_nat d) "IMG_0001.jpg" |}.

Definition empty_world : World :=
  {| dirs := ∅; files := ∅; db := ∅; requests := 0; progress := 0 |}.

(** A world in which the plain name of the photo is taken, on disk and in
    the index, by another item. *)
Definition taken_world : World :=
  {| dirs := {["/photos"]};
     files := {["/photos/IMG_0001.jpg" := [Byte.x89]]};
     db := {["/photos/IMG_0001.jpg" := {["id" := "id-0"]};
            "id-0" := {["filename" := "/photos/IMG_0001.jpg"]}]};
     requests := 0; progress := 0 |}.

(** A world in which a file is under the name of the folder. *)
Definition blocked_world : World :=
  {| dirs := ∅; files := {["/photos" := []]}; db := ∅;
     requests := 0; progress := 0 |}.

(** A world in which a directory is under the name of the photo, and one
    in which a directory is under the name of the temporary file. *)
Definition folder_named_world : World :=
  {| dirs := {["/photos"; "/photos/IMG_0001.jpg"]}; files := ∅; db := ∅;
     requests := 0; progress := 0 |}.

Definition temp_named_world : World :=
  {| dirs := {["/photos"; "/photos/.temp-gphotos"]}; files := ∅; db := ∅;
     requests := 0; progress := 0 |}.

(** A remote side that has the folder [2021] under [root] and the folder
    [06] under that one, and in that one a photo and a video. *)
Definition a_listing : Listing :=
  λ q,
    if String.eqb q (FOLDER_QUERY "2021" "root")
    then [ [ {["id" := "folder-2021"]} ] ]
    else if String.eqb q (FOLDER_QUERY "06" "folder-2021")
    then [ [ {["id" := "folder-06"]} ] ]
    else if String.eqb q (MEDIA_QUERY "folder-06")
    then [ [ {["id" := "id-1"; "mimeType" := "image/jpeg"]} ];
           [ {["id" := "id-2"; "mimeType" := "video/mp4"]} ] ]
    else [].

(** A stand-in for the constructor [GooglePhotosMedia]. *)
Definition media_of (drive_file : record) : Media :=
  {| id := default "" (drive_file !! "id"); description := "";
     checksum := ""; duplicate_number := 0;
     name_with := λ d, marked (Z.to_nat d) "IMG_0001.jpg" |}.

(** A Drive without a Google Photos folder, on which every download breaks
    after one byte. *)
Definition failing_drive : Drive :=
  {| ListFile := λ _, Results [];
     get_media := λ _ _, Fails [[Byte.x89]] (HttpError "503") |}.

(** A Drive on which the first two downloads break and the third
    completes. *)
Definition flaky_drive : Drive :=
  {| ListFile := λ _, Results [ {["id" := "folder-0"]} ];
     get_media := λ n _,
       if (n <? 2)%nat then Fails [[Byte.x89]] (HttpError "503")
       else Completes [[Byte.x89]; [Byte.x50]] |}.

End GooglePhotosSync.

(** * Properties of the index *)

Module LocalDataProofs.
Import LocalData.

(** ** Duplicate numbering *)

Section DuplicateNo.

Implicit Types (db : Database) (row r : SyncRow) (rows : list SyncRow).

Lemma foldl_max_ge (l : list Z) (x : Z) : (x ≤ foldl Z.max x l)%Z.
Proof.
  revert x. induction l as [|y l IH]; intros x; simpl; [lia|].
  specialize (IH (Z.max x y)). lia.
Qed.

Lemma foldl_max_elem (l : list Z) (x : Z) :
  foldl Z.max x l = x ∨ foldl Z.max x l ∈ l.
Proof.
  revert x. induction l as [|y l IH]; intros x; simpl; [by left|].
  destruct (IH (Z.max x y)) as [Heq|Hin].
  - rewrite Heq. destruct (Z.max_spec x y) as [[_ ->]|[_ ->]].
    + right. left.
    + by left.
  - right. by right.
Qed.

Lemma foldl_max_upper (l : list Z) (x : Z) :
  Forall (λ y, (y ≤ foldl Z.max x l)%Z) l.
Proof.
  revert x. induction l as [|y l IH]; intros x; simpl; constructor.
  - pose proof (foldl_max_ge l (Z.max x y)). lia.
  - apply IH.
Qed.

(** [MAX] is an element of the column and bounds it. *)
Lemma sql_max_Some (l : list Z) (m : Z) :
  sql_max l = Some m → m ∈ l ∧ Forall (λ y, (y ≤ m)%Z) l.
Proof.
  destruct l as [|x l]; simpl; [done|]. intros [= <-]. split.
  - destruct (foldl_max_elem l x) as [->|Hin]; [left|by right].
  - constructor; [apply foldl_max_ge|apply foldl_max_upper].
Qed.

Lemma sql_max_None (l : list Z) : sql_max l = None ↔ l = [].
Proof. by destruct l. Qed.

Lemma sql_max_first_numbers (k : nat) :
  sql_max (first_numbers (S k)) = Some (Z.of_nat k).
Proof.
  destruct (sql_max (first_numbers (S k))) as [m|] eqn:Hmax.
  - apply sql_max_Some in Hmax as [Hin Hall]. f_equal.
    apply list_elem_of_fmap in Hin as (i & -> & Hi).
    apply elem_of_seq in Hi.
    rewrite Forall_forall in Hall.
    assert (Z.of_nat k ∈ first_numbers (S k)) as Hk.
    { apply list_elem_of_fmap. exists k. split; [done|].
      apply elem_of_seq. lia. }
    apply Hall in Hk. lia.
  - apply sql_max_None in Hmax. discriminate.
Qed.

Lemma select_by_id_fresh db file_id :
  file_id ∉ RemoteId <$> SyncFiles db → select_by_id db file_id = [].
Proof.
  intros Hfresh. unfold select_by_id.
  induction (SyncFiles db) as [|r l IH]; [done|].
  rewrite fmap_cons, not_elem_of_cons in Hfresh. destruct Hfresh as [Hne Hl].
  rewrite filter_cons_False by congruence. by apply IH.
Qed.

(** A remote id without a record gets the number after the group's
    maximum, or 0 in an empty group. *)
Lemma file_duplicate_no_fresh db file_id path name :
  file_id ∉ RemoteId <$> SyncFiles db →
  file_duplicate_no db file_id path name =
    match sql_max (DuplicateNo <$> select_group db path name) with
    | Some m => (m + 1)%Z
    | None => 0%Z
    end.
Proof.
  intros Hfresh. unfold file_duplicate_no.
  by rewrite select_by_id_fresh.
Qed.

Lemma put_file_fresh db row :
  RemoteId row ∉ RemoteId <$> SyncFiles db →
  put_file db row =
    (set_SyncFiles db (SyncFiles db ++ [row]),
     Return (Z.of_nat (length (SyncFiles db ++ [row])))).
Proof.
  intros Hfresh. unfold put_file, violates_unique_RemoteId.
  by rewrite bool_decide_eq_false_2.
Qed.

(** [put_file] keeps the rows that are there, in their order. *)
Lemma put_file_prefix db row :
  ∃ more, SyncFiles (put_file db row).1 = SyncFiles db ++ more.
Proof.
  unfold put_file. destruct (violates_unique_RemoteId db row); simpl.
  - exists []. by rewrite app_nil_r.
  - by exists [row].
Qed.

Lemma put_files_prefix rows db :
  ∃ more, SyncFiles (put_files db rows) = SyncFiles db ++ more.
Proof.
  revert db. induction rows as [|row rows IH]; intros db; simpl.
  - exists []. by rewrite app_nil_r.
  - destruct (IH (put_file db row).1) as [more2 ->].
    destruct (put_file_prefix db row) as [more1 ->].
    exists (more1 ++ more2). by rewrite <-(assoc_L (++)).
Qed.

(** No row of a list carries an id that is not among the ids of the
    list. *)
Lemma filter_id_fresh rows file_id :
  file_id ∉ RemoteId <$> rows →
  filter (λ r, RemoteId r = file_id) rows = [].
Proof.
  induction rows as [|x rows IH]; intros Hfresh; [done|].
  rewrite fmap_cons, not_elem_of_cons in Hfresh. destruct Hfresh as [Hne Hl].
  rewrite filter_cons_False by congruence. by apply IH.
Qed.

(** C3. A remote id that has a record keeps its number. The record of an
    id is the oldest row of [SyncFiles] that carries it: the row [r] in a
    table [before ++ r :: after] of which no row of [before] has the id of
    [r]; under the unique key on [RemoteId] it is the only row of that id.
    For every database and every such row, [file_duplicate_no] of the id
    returns the [DuplicateNo] stored in [r], for any [path] and [name], and
    it still does so after any rows were inserted since, whatever their
    group: the table has grown at its end only. *)
Theorem file_duplicate_no_existing db before r after :
  SyncFiles db = before ++ r :: after →
  RemoteId r ∉ RemoteId <$> before →
  ∀ path name,
    file_duplicate_no db (RemoteId r) path name = DuplicateNo r ∧
    get_file_by_id db (RemoteId r) = Some r ∧
    (NoDup (RemoteId <$> SyncFiles db) →
     ∀ r', r' ∈ SyncFiles db → RemoteId r' = RemoteId r → r' = r) ∧
    ∀ rows path' name',
      (∃ more,
         SyncFiles (put_files db rows) = before ++ r :: after ++ more) ∧
      get_file_by_id (put_files db rows) (RemoteId r) = Some r ∧
      file_duplicate_no (put_files db rows) (RemoteId r) path' name'
        = DuplicateNo r.
Proof.
  intros Htable Hfirst path name.
  assert (∀ d more p n,
            SyncFiles d = before ++ r :: after ++ more →
            select_by_id d (RemoteId r)
              = r :: filter (λ x, RemoteId x = RemoteId r) (after ++ more)
            ∧ file_duplicate_no d (RemoteId r) p n = DuplicateNo r)
    as Hdup.
  { intros d more p n Hd.
    assert (select_by_id d (RemoteId r)
            = r :: filter (λ x, RemoteId x = RemoteId r) (after ++ more))
      as Hselect.
    { unfold select_by_id.
      by rewrite Hd, filter_app, filter_id_fresh, filter_cons_True. }
    split; [done|]. unfold file_duplicate_no. by rewrite Hselect. }
  assert (SyncFiles db = before ++ r :: after ++ []) as Htable'
    by (by rewrite app_nil_r).
  split; [by apply (Hdup db [])|].
  split.
  { unfold get_file_by_id.
    by rewrite (proj1 (Hdup db [] path name Htable')). }
  split.
  - rewrite Htable, fmap_app, fmap_cons.
    intros [Hbefore [Hcross Hrest]]%NoDup_app r' Hin Hid.
    apply NoDup_cons in Hrest as [Hafter _].
    apply elem_of_app in Hin as [Hin|Hin].
    + destruct Hfirst. rewrite <-Hid. by apply list_elem_of_fmap_2.
    + apply elem_of_cons in Hin as [->|Hin]; [done|].
      destruct Hafter. rewrite <-Hid. by apply list_elem_of_fmap_2.
  - intros rows path' name'.
    destruct (put_files_prefix rows db) as [more Hmore].
    assert (SyncFiles (put_files db rows) = before ++ r :: after ++ more)
      as Hlater by (by rewrite Hmore, Htable, <-(assoc_L (++))).
    split; [by exists more|]. split; [|by apply (Hdup _ more)].
    unfold get_file_by_id.
    by rewrite (proj1 (Hdup _ more path' name' Hlater)).
Qed.

(** Under the key constraint the record held for an id is the one record
    that carries it. *)
Lemma get_file_by_id_unique db r :
  NoDup (RemoteId <$> SyncFiles db) → r ∈ SyncFiles db →
  get_file_by_id db (RemoteId r) = Some r.
Proof.
  unfold get_file_by_id, select_by_id.
  induction (SyncFiles db) as [|x l IH]; intros Hnodup Hin.
  - by apply elem_of_nil in Hin.
  - rewrite fmap_cons in Hnodup. apply NoDup_cons in Hnodup as [Hx Hl].
    apply elem_of_cons in Hin as [->|Hin].
    + by rewrite filter_cons_True.
    + rewrite filter_cons_False; [by apply IH|].
      intros Heq. apply Hx. rewrite Heq. by apply list_elem_of_fmap_2.
Qed.

Lemma next_after_first_numbers (k : nat) :
  match sql_max (first_numbers k) with
  | Some m => (m + 1)%Z
  | None => 0%Z
  end = Z.of_nat k.
Proof.
  destruct k as [|k]; [done|]. rewrite sql_max_first_numbers. lia.
Qed.

Lemma first_numbers_S (k : nat) :
  first_numbers (S k) = first_numbers k ++ [Z.of_nat k].
Proof. unfold first_numbers. by rewrite seq_S, fmap_app. Qed.

Lemma select_group_put db path name row :
  select_group (set_SyncFiles db (SyncFiles db ++ [row])) path name =
  select_group db path name ++
    (if decide (Path row = path ∧ OrigFileName row = name) then [row] else []).
Proof.
  unfold select_group. simpl. by rewrite filter_app.
Qed.

(** A group that holds the numbers [0 .. k-1] hands out [k], [k+1], ... to
    items whose ids are new. *)
Lemma resolve_and_put_from path name items :
  ∀ db (k : nat),
    DuplicateNo <$> select_group db path name = first_numbers k →
    NoDup (RemoteId <$> items) →
    (∀ item, item ∈ items → RemoteId item ∉ RemoteId <$> SyncFiles db) →
    (resolve_and_put db path name items).2.*1
      = Z.of_nat <$> seq k (length items) ∧
    Forall (λ a, ¬ raises a.2) (resolve_and_put db path name items).2 ∧
    DuplicateNo <$> select_group (resolve_and_put db path name items).1
                      path name
      = first_numbers (k + length items).
Proof.
  induction items as [|item items IH]; intros db k Hgroup Hnodup Hfresh.
  - simpl. rewrite Nat.add_0_r. by repeat split.
  - rewrite fmap_cons in Hnodup. apply NoDup_cons in Hnodup as [Hitem Hnodup].
    assert (RemoteId item ∉ RemoteId <$> SyncFiles db) as Hnew
      by (apply Hfresh; left).
    simpl.
    rewrite (file_duplicate_no_fresh db _ path name Hnew), Hgroup,
      next_after_first_numbers.
    set (row := resolved item path name (Z.of_nat k)).
    rewrite (put_file_fresh db row Hnew).
    set (db1 := set_SyncFiles db (SyncFiles db ++ [row])).
    destruct (IH db1 (S k)) as (Hnums & Hok & Hfinal).
    + unfold db1. rewrite select_group_put, decide_True by done.
      by rewrite fmap_app, Hgroup, first_numbers_S.
    + done.
    + intros item' Hin. simpl. rewrite fmap_app. simpl.
      intros [Hold|Hrow%list_elem_of_singleton]%elem_of_app.
      * by apply (Hfresh item'); [right|].
      * apply Hitem. rewrite <-Hrow. by apply list_elem_of_fmap_2.
    + destruct (resolve_and_put db1 path name items) as [db2 dups] eqn:Hrun.
      simpl in Hnums, Hok, Hfinal. split; [|split].
      * simpl. f_equal. exact Hnums.
      * constructor; [intros []|exact Hok].
      * simpl. by rewrite Hfinal, Nat.add_succ_r.
Qed.

Lemma put_file_refused db row :
  RemoteId row ∈ RemoteId <$> SyncFiles db →
  put_file db row = (db, Raise IntegrityError).
Proof.
  intros Hheld. unfold put_file, violates_unique_RemoteId.
  by rewrite bool_decide_eq_true_2.
Qed.

(** The same run, known only to have had every insert accepted: the ids
    were new then, each at its turn. *)
Lemma resolve_and_put_accepted path name items :
  ∀ db (k : nat),
    DuplicateNo <$> select_group db path name = first_numbers k →
    Forall (λ a, ¬ raises a.2) (resolve_and_put db path name items).2 →
    (resolve_and_put db path name items).2.*1
      = Z.of_nat <$> seq k (length items) ∧
    DuplicateNo <$> select_group (resolve_and_put db path name items).1
                      path name
      = first_numbers (k + length items) ∧
    SyncFiles (resolve_and_put db path name items).1
      = SyncFiles db
        ++ imap (λ i item, resolved item path name (Z.of_nat (k + i))) items.
Proof.
  induction items as [|item items IH]; intros db k Hgroup Hok.
  - simpl. by rewrite Nat.add_0_r, app_nil_r.
  - simpl in Hok |- *.
    destruct (decide (RemoteId item ∈ RemoteId <$> SyncFiles db))
      as [Hheld|Hnew].
    + rewrite (put_file_refused db (resolved item path name _)) in Hok
        by done.
      destruct (resolve_and_put db path name items) as [db2 dups].
      apply Forall_cons in Hok as [Hraised _]. by destruct Hraised.
    + rewrite (file_duplicate_no_fresh db _ path name Hnew), Hgroup,
        next_after_first_numbers in Hok |- *.
      set (row := resolved item path name (Z.of_nat k)) in *.
      rewrite (put_file_fresh db row Hnew) in Hok |- *.
      set (db1 := set_SyncFiles db (SyncFiles db ++ [row])) in *.
      destruct (resolve_and_put db1 path name items) as [db2 dups] eqn:Hrun.
      apply Forall_cons in Hok as [_ Hok].
      destruct (IH db1 (S k)) as (Hnums & Hfinal & Htable).
      * unfold db1. rewrite select_group_put, decide_True by done.
        by rewrite fmap_app, Hgroup, first_numbers_S.
      * by rewrite Hrun.
      * rewrite Hrun in Hnums, Hfinal, Htable.
        simpl in Hnums, Hfinal, Htable. split; [|split].
        -- simpl. f_equal. exact Hnums.
        -- simpl. by rewrite Hfinal, Nat.add_succ_r.
        -- simpl. rewrite Htable, <-(assoc_L (++)). simpl.
           rewrite Nat.add_0_r. do 2 f_equal.
           apply imap_ext. intros i x _. simpl. by rewrite Nat.add_succ_r.
Qed.

(** A group without rows, said of the rows of the table. *)
Lemma select_group_none db path name :
  (∀ r, r ∈ SyncFiles db → ¬ (Path r = path ∧ OrigFileName r = name)) →
  select_group db path name = [].
Proof.
  unfold select_group. induction (SyncFiles db) as [|x l IH]; intros Hnone.
  - done.
  - rewrite filter_cons_False by (apply Hnone; left).
    apply IH. intros r Hin. apply Hnone. by right.
Qed.

(** C4. Gap-free first assignment. The group of [(path, name)] is the
    rows of [SyncFiles] with that [Path] and [OrigFileName]. A remote id
    without a record gets 0 when no row of the table is in the group, and
    otherwise the successor of the greatest number of the rows in the
    group. Hence, from a database with no row in the group, resolving and
    inserting items in order numbers them 0, 1, ..., N-1, the table
    growing by these items filed under the group with these numbers:
    whenever the ids are pairwise distinct and new, in which case every
    insert is accepted, and whenever every insert was accepted. *)
Theorem gap_free_first_assignment db path name items :
  (∀ r, r ∈ SyncFiles db → ¬ (Path r = path ∧ OrigFileName r = name)) →
  (∀ file_id, file_id ∉ RemoteId <$> SyncFiles db →
     file_duplicate_no db file_id path name = 0%Z) ∧
  (∀ db' file_id r,
     file_id ∉ RemoteId <$> SyncFiles db' →
     r ∈ SyncFiles db' → Path r = path → OrigFileName r = name →
     let top := (file_duplicate_no db' file_id path name - 1)%Z in
     (∃ r', r' ∈ SyncFiles db' ∧ Path r' = path ∧ OrigFileName r' = name ∧
            DuplicateNo r' = top) ∧
     (∀ r', r' ∈ SyncFiles db' → Path r' = path → OrigFileName r' = name →
            (DuplicateNo r' ≤ top)%Z)) ∧
  (NoDup (RemoteId <$> items) →
   (∀ item, item ∈ items → RemoteId item ∉ RemoteId <$> SyncFiles db) →
   Forall (λ a, ¬ raises a.2) (resolve_and_put db path name items).2) ∧
  (Forall (λ a, ¬ raises a.2) (resolve_and_put db path name items).2 →
   (resolve_and_put db path name items).2.*1 = first_numbers (length items) ∧
   SyncFiles (resolve_and_put db path name items).1
     = SyncFiles db
       ++ imap (λ i item, resolved item path name (Z.of_nat i)) items).
Proof.
  intros Hempty%select_group_none. split; [|split; [|split]].
  - intros file_id Hnew.
    by rewrite (file_duplicate_no_fresh db _ path name Hnew), Hempty.
  - intros db' file_id r Hnew Hin Hpath Hname top. subst top.
    rewrite (file_duplicate_no_fresh db' _ path name Hnew).
    destruct (sql_max _) as [m|] eqn:Hmax.
    + apply sql_max_Some in Hmax as [Hm Hall].
      replace (m + 1 - 1)%Z with m by lia. split.
      * apply list_elem_of_fmap in Hm as (r' & -> & Hr').
        apply list_elem_of_filter in Hr' as [[Hp Hn] Hr'].
        by exists r'.
      * intros r' Hin' Hpath' Hname'.
        rewrite Forall_fmap, Forall_forall in Hall. apply Hall.
        apply list_elem_of_filter. by split.
    + apply sql_max_None, fmap_nil_inv in Hmax.
      assert (r ∈ select_group db' path name) as Hr
        by (apply list_elem_of_filter; by split).
      rewrite Hmax in Hr. by apply elem_of_nil in Hr.
  - intros Hnodup Hfresh.
    apply (resolve_and_put_from path name items db 0); [|done..].
    by rewrite Hempty.
  - intros Hok.
    destruct (resolve_and_put_accepted path name items db 0)
      as (Hnums & _ & Htable); [by rewrite Hempty|done|].
    split; [exact Hnums|exact Htable].
Qed.

End DuplicateNo.

(** ** Search by date *)

Section Search.

Implicit Types (db : Database) (r : SyncRow) (d : datetime).

Lemma BLOCK_SIZE_pos : Z.to_nat BLOCK_SIZE ≠ 0%nat.
Proof. unfold BLOCK_SIZE. lia. Qed.

(** The blocks, put end to end, are the whole result of the query. *)
Lemma yield_blocks_all (cursor : list SyncRow) : yield_blocks cursor = cursor.
Proof.
  funelim (yield_blocks cursor); clear Heqcall.
  - destruct cursor as [|c cursor]; [done|].
    pose proof BLOCK_SIZE_pos.
    match goal with Htake : take _ _ = [] |- _ =>
      by destruct (Z.to_nat BLOCK_SIZE) end.
  - match goal with IH : yield_blocks _ = _ |- _ => rewrite IH end.
    match goal with Htake : take _ _ = _ :: _ |- _ => rewrite <-Htake end.
    apply take_drop.
Qed.

Lemma date_ge_on_or_after col d : date_ge col d ↔ on_or_after col d.
Proof.
  unfold date_ge, on_or_after, String.le. destruct col as [c|].
  - split; [by exists c|]. by intros (c' & [= <-] & Hle).
  - split; [done|]. by intros (c' & [=] & _).
Qed.

Lemma date_le_on_or_before col d : date_le col d ↔ on_or_before col d.
Proof.
  unfold date_le, on_or_before, String.le. destruct col as [c|].
  - split; [by exists c|]. by intros (c' & [= <-] & Hle).
  - split; [done|]. by intros (c' & [=] & _).
Qed.

Lemma get_files_by_search_elem db drive_id media_type start_date end_date r :
  r ∈ get_files_by_search db drive_id media_type start_date end_date ↔
  r ∈ SyncFiles db ∧ matches_patterns drive_id media_type r ∧
  match start_date with
  | Some d => on_or_after (ModifyDate r) d ∨ on_or_after (CreateDate r) d
  | None => True
  end ∧
  match end_date with
  | Some d => on_or_before (ModifyDate r) d
  | None => True
  end.
Proof.
  unfold get_files_by_search, matches_patterns, search_where.
  rewrite yield_blocks_all, list_elem_of_filter, !andb_True.
  destruct start_date as [s|], end_date as [e|];
    rewrite ?orb_True, ?date_ge_on_or_after, ?date_le_on_or_before;
    tauto.
Qed.

(** C7. Date window. With a start date the search yields exactly the
    records matching the patterns whose [ModifyDate] or [CreateDate] is on
    or after it; with an end date, exactly those whose [ModifyDate] is on
    or before it, whatever their [CreateDate]; so a record modified before
    the start date and created on or after it is among the results. The
    results come in table order, each record once for each of its rows. *)
Theorem date_window_inclusive db drive_id media_type :
  (∀ d r,
     r ∈ get_files_by_search db drive_id media_type (Some d) None ↔
     r ∈ SyncFiles db ∧ matches_patterns drive_id media_type r ∧
     (on_or_after (ModifyDate r) d ∨ on_or_after (CreateDate r) d)) ∧
  (∀ d r,
     r ∈ get_files_by_search db drive_id media_type None (Some d) ↔
     r ∈ SyncFiles db ∧ matches_patterns drive_id media_type r ∧
     on_or_before (ModifyDate r) d) ∧
  (∀ d r modified,
     r ∈ SyncFiles db → matches_patterns drive_id media_type r →
     ModifyDate r = Some modified → ¬ String.le d modified →
     on_or_after (CreateDate r) d →
     r ∈ get_files_by_search db drive_id media_type (Some d) None) ∧
  (∀ start_date end_date,
     get_files_by_search db drive_id media_type start_date end_date
       `sublist_of` SyncFiles db).
Proof.
  split; [|split; [|split]].
  - intros d r. rewrite get_files_by_search_elem. tauto.
  - intros d r. rewrite get_files_by_search_elem. tauto.
  - intros d r modified Hin Hlike _ _ Hcreated.
    apply get_files_by_search_elem. tauto.
  - intros start_date end_date. unfold get_files_by_search.
    rewrite yield_blocks_all. apply sublist_filter.
Qed.

End Search.

(** ** Drive folders *)

Section DriveFolders.

Implicit Types (db : Database) (rows : list FolderRow).

Lemma select_folder_after_delete folder_id rows :
  filter (λ r, FolderId r = folder_id) (delete_conflicting folder_id rows)
    = [].
Proof.
  unfold delete_conflicting. induction rows as [|r rows IH]; [done|].
  destruct (decide (FolderId r = folder_id)) as [Heq|Hne].
  - by rewrite (filter_cons_False (λ r, FolderId r ≠ folder_id)) by tauto.
  - rewrite (filter_cons_True (λ r, FolderId r ≠ folder_id)) by done.
    by rewrite filter_cons_False.
Qed.

(** After the upsert the one row of the folder is the row just written. *)
Lemma select_folder_put db folder_id parent_id name :
  filter (λ r, FolderId r = folder_id)
         (DriveFolders (put_drive_folder db folder_id parent_id name))
  = [ {| FolderId := folder_id; ParentId := parent_id; FolderName := name;
         FolderPath := None |} ].
Proof.
  unfold put_drive_folder. simpl.
  rewrite filter_app, select_folder_after_delete. simpl.
  by rewrite filter_cons_True.
Qed.

Lemma select_folder_update folder_id path parent_id rows :
  filter (λ r, FolderId r = folder_id)
    ((λ r, if parent_is parent_id r then set_FolderPath path r else r)
       <$> rows)
  = (λ r, if parent_is parent_id r then set_FolderPath path r else r)
      <$> filter (λ r, FolderId r = folder_id) rows.
Proof.
  induction rows as [|r rows IH]; [done|]. rewrite fmap_cons.
  destruct (decide (FolderId r = folder_id)) as [Heq|Hne].
  - rewrite (filter_cons_True _ r) by done. rewrite fmap_cons, <-IH.
    apply filter_cons_True. by destruct (parent_is parent_id r).
  - rewrite (filter_cons_False _ r) by done. rewrite <-IH.
    apply filter_cons_False. by destruct (parent_is parent_id r).
Qed.



End DriveFolders.

(** ** The schema gate *)

Section SchemaGate.

Implicit Types (self : Self) (fs : FileSystem) (v : Qc).



Lemma stored_version_row self v :
  stored_version (con self) = Some v →
  ∃ row, fetchone (filter (λ g, Id g = 1%Z) (Globals (con self))) = Some row
         ∧ Version row = v.
Proof.
  unfold stored_version. destruct (fetchone _) as [row|]; [|done].
  intros [= <-]. by exists row.
Qed.

(** The gate on a newer store raises and changes nothing. *)
Lemma gate_refuses_newer self fs v :
  stored_version (con self) = Some v →
  (VERSION < v)%Qc →
  check_schema_version self fs =
    (self, fs,
     Raise (ValueError "Database version is newer than gphotos-sync")).
Proof.
  intros (row & Hrow & <-)%stored_version_row Hnewer.
  unfold check_schema_version. rewrite Hrow. simpl.
  by rewrite decide_True.
Qed.


(** Opening a store that exists, with [flush_index] at its default, is the
    gate on what the file holds. *)
Lemma init_existing_store root_folder fs db :
  os_path_exists root_folder fs = true →
  files fs !! os_path_join root_folder DB_FILE_NAME = Some db →
  init root_folder false fs =
    check_schema_version
      {| file_name := os_path_join root_folder DB_FILE_NAME; con := db |} fs.
Proof.
  intros Hroot Hfile. unfold init. rewrite Hroot.
  unfold os_path_exists at 1. rewrite Hfile.
  rewrite (bool_decide_eq_true_2 (is_Some (Some db))) by done.
  rewrite orb_true_r. simpl. unfold connect. by rewrite Hfile.
Qed.

(** With [flush_index] the schema is created anew before the gate looks at
    it: the gate then finds [VERSION], whatever the store carried. *)
Lemma init_flush_index root_folder fs :
  ∃ fs',
    init root_folder true fs =
      ({| file_name := os_path_join root_folder DB_FILE_NAME;
          con := gphotos_create |}, fs', Return tt) ∧
    files fs' !! os_path_join root_folder DB_FILE_NAME = Some gphotos_create.
Proof.
  unfold init. rewrite orb_true_r. simpl.
  unfold check_schema_version. simpl.
  eexists. split; [done|].
  unfold commit. simpl. destruct (os_path_exists root_folder fs); simpl;
    by rewrite lookup_insert_eq.
Qed.

(** C5. The gate on a newer store. Whenever the version that the gate
    reads from the store is greater than [VERSION],
    [check_schema_version] raises the [ValueError] of the unsupported
    schema, and neither the object nor the disk has changed: nothing is
    committed, renamed or created. Hence opening a store that carries such
    a version ([flush_index] at its default) fails with that error and
    leaves the disk as it was. *)
Theorem newer_store_is_refused :
  (∀ self fs v,
     stored_version (con self) = Some v →
     (VERSION < v)%Qc →
     check_schema_version self fs =
       (self, fs,
        Raise (ValueError "Database version is newer than gphotos-sync"))) ∧
  (∀ root_folder fs db v,
     os_path_exists root_folder fs = true →
     files fs !! os_path_join root_folder DB_FILE_NAME = Some db →
     stored_version db = Some v →
     (VERSION < v)%Qc →
     init root_folder false fs =
       ({| file_name := os_path_join root_folder DB_FILE_NAME; con := db |},
        fs,
        Raise (ValueError "Database version is newer than gphotos-sync"))).
Proof.
  split.
  - apply gate_refuses_newer.
  - intros root_folder fs db v Hroot Hfile Hv Hnewer.
    rewrite (init_existing_store _ _ db) by done.
    by apply (gate_refuses_newer _ _ v).
Qed.



End SchemaGate.

(** ** The theorems at work on the example stores *)

Example os_path_join_relative :
  os_path_join "/photos" "gphotos.sqlite" = "/photos/gphotos.sqlite"
  ∧ os_path_join "/photos/" "a.jpg" = "/photos/a.jpg"
  ∧ os_path_join "/photos" "/tmp/a.jpg" = "/tmp/a.jpg"
  ∧ os_path_join "" "a.jpg" = "a.jpg".
Proof. repeat split. Qed.

Example sql_like_wildcards :
  sql_like "%" "" = true ∧ sql_like "%" "id-1" = true
  ∧ sql_like "ID-_" "id-1" = true ∧ sql_like "id-_" "id-12" = false
  ∧ sql_like "a%c" "abbc" = true ∧ sql_like "a%c" "abcd" = false
  ∧ sql_like "1%" (sql_text 12) = true.
Proof. repeat split. Qed.

Example yield_blocks_of_three :
  yield_blocks [photo "a" 0; photo "b" 1; photo "c" 2]
  = [photo "a" 0; photo "b" 1; photo "c" 2].
Proof. by rewrite yield_blocks_all. Qed.

Example duplicate_no_of_a_newcomer :
  file_duplicate_no one_photo "id-2" "/photos/2021" "IMG_0001.jpg" = 5%Z
  ∧ file_duplicate_no one_photo "id-2" "/photos/2022" "IMG_0001.jpg" = 0%Z.
Proof. split; reflexivity. Qed.

Example put_file_twice :
  (put_file one_photo (photo "id-1" 5)).2 = Raise IntegrityError.
Proof. reflexivity. Qed.

Lemma file_duplicate_no_existing_witness :
  file_duplicate_no two_photos "id-1" "/elsewhere" "other.jpg" = 4%Z ∧
  get_file_by_id two_photos "id-1" = Some (photo "id-1" 4) ∧
  file_duplicate_no (put_files two_photos [photo "id-2" 5; photo "id-3" 6])
    "id-1" "/photos/2021" "IMG_0001.jpg" = 4%Z.
Proof.
  destruct (file_duplicate_no_existing two_photos [photo "id-0" 0]
              (photo "id-1" 4) [] eq_refl) with "/elsewhere" "other.jpg"
    as (Hnow & Hheld & _ & Hlater).
  - apply (bool_decide_unpack _). vm_compute. exact I.
  - split; [exact Hnow|]. split; [exact Hheld|].
    exact (proj2 (proj2 (Hlater [photo "id-2" 5; photo "id-3" 6]
                           "/photos/2021" "IMG_0001.jpg"))).
Defined.

Lemma gap_free_first_assignment_witness :
  (resolve_and_put one_photo "/photos/2022" "IMG_0001.jpg"
     [photo "a" 9; photo "b" 9; photo "c" 9]).2.*1 = [0; 1; 2]%Z
  ∧ DuplicateNo <$>
      SyncFiles (resolve_and_put one_photo "/photos/2022" "IMG_0001.jpg"
                   [photo "a" 9; photo "b" 9; photo "c" 9]).1
    = [4; 0; 1; 2]%Z.
Proof.
  destruct (gap_free_first_assignment one_photo "/photos/2022"
              "IMG_0001.jpg" [photo "a" 9; photo "b" 9; photo "c" 9])
    as (_ & _ & Haccepted & Hnumbers).
  - intros r Hin [Hpath _]. apply list_elem_of_singleton in Hin.
    rewrite Hin in Hpath. discriminate Hpath.
  - destruct Hnumbers as [Hnums Htable].
    + apply Haccepted.
      * apply (bool_decide_unpack _). vm_compute. exact I.
      * intros item Hin. apply (bool_decide_unpack _).
        repeat (apply elem_of_cons in Hin as [->|Hin];
                [vm_compute; exact I|]).
        by apply elem_of_nil in Hin.
    + split; [exact Hnums|]. rewrite Htable. reflexivity.
Defined.

Lemma date_window_inclusive_witness :
  photo "id-1" 4
    ∈ get_files_by_search one_photo "%" "%" (Some "2021-05-01 00:00:00") None
  ∧ photo "id-1" 4
    ∉ get_files_by_search one_photo "%" "%" None (Some "2020-12-31 00:00:00").
Proof.
  destruct (date_window_inclusive one_photo "%" "%")
    as (_ & Hend & Hcreated & _).
  split.
  - apply (Hcreated "2021-05-01 00:00:00" (photo "id-1" 4)
             "2021-01-01 00:00:00").
    + left.
    + split; vm_compute; exact I.
    + reflexivity.
    + vm_compute. intros [].
    + exists "2021-06-01 00:00:00". split; [reflexivity|]. vm_compute. exact I.
  - intros (_ & _ & (modified & Hmodified & Hle))%Hend.
    injection Hmodified as <-. vm_compute in Hle. exact Hle.
Defined.


Lemma newer_store_is_refused_witness :
  init "/photos" false (disk_with (schema_of_version (Qc_of_Z 3)))
  = (opened (schema_of_version (Qc_of_Z 3)),
     disk_with (schema_of_version (Qc_of_Z 3)),
     Raise (ValueError "Database version is newer than gphotos-sync")).
Proof.
  apply (proj2 newer_store_is_refused "/photos"
           (disk_with (schema_of_version (Qc_of_Z 3)))
           (schema_of_version (Qc_of_Z 3)) (Qc_of_Z 3)).
  - vm_compute. reflexivity.
  - vm_compute. reflexivity.
  - reflexivity.
  - vm_compute. reflexivity.
Defined.


End LocalDataProofs.

(** * Properties of the driver *)

Module GooglePhotosSyncProofs.
Import GooglePhotosSync.

(** ** The remote root *)

(** C9. [get_photos_folder_id] raises [NoGooglePhotosFolderError] exactly
    when the query for the Google Photos folder answers with results of
    which the first has no usable id (there is no first result, or it has
    no id), and otherwise returns the id of the first result. *)
Theorem photos_folder_id_or_error (drive : Drive) :
  (get_photos_folder_id drive = Raise NoGooglePhotosFolderError ↔
   ∃ query_results,
     ListFile drive GOOGLE_PHOTO_FOLDER_QUERY = Results query_results ∧
     first_result_id query_results = None) ∧
  (∀ query_results i,
     ListFile drive GOOGLE_PHOTO_FOLDER_QUERY = Results query_results →
     first_result_id query_results = Some i →
     get_photos_folder_id drive = Return i).
Proof.
  unfold get_photos_folder_id, first_result_id, first_item, getitem.
  destruct (ListFile drive GOOGLE_PHOTO_FOLDER_QUERY) as [l|msg].
  - destruct l as [|item rest]; simpl.
    + split; [|by intros ?? [= <-]]. split; [by exists []|done].
    + destruct (item !! "id") as [i|] eqn:Hid.
      * split; [|intros ?? [= <-]; simpl; rewrite Hid; by intros [= ->]].
        split; [done|]. intros (l & [= <-] & Hnone). simpl in Hnone.
        by rewrite Hid in Hnone.
      * split; [|intros ?? [= <-]; simpl; by rewrite Hid].
        split; [|done]. intros _. exists (item :: rest). simpl.
        by rewrite Hid.
  - split; [|by intros ?? [=]]. split; [done|]. by intros (l & [=] & _).
Qed.

(** ** Termination of the existence checks *)

Section Termination.

Implicit Types (w : World) (media : Media) (X keys : gset string).

(** Probing the names [key d], [key (d+1)], ... against a finite set of
    names that are present: each name found present is one name less to
    find. *)
Lemma probe_step keys X (key : Z → string) (n : nat) (d : Z) :
  (∀ d', (d < d')%Z → key d ≠ key d') →
  size X ≤ n →
  (∀ d', (d ≤ d')%Z → key d' ∈ keys → key d' ∈ X) →
  key d ∈ keys →
  ∃ n', n = S n' ∧ size (X ∖ {[key d]}) ≤ n' ∧
        ∀ d', (d + 1 ≤ d')%Z → key d' ∈ keys → key d' ∈ X ∖ {[key d]}.
Proof.
  intros Hinj Hsize Hcover Hpresent.
  assert (key d ∈ X) as HX by (apply Hcover; [lia|done]).
  assert (size X = S (size (X ∖ {[key d]}))) as Hone.
  { rewrite (union_difference_L {[key d]} X) at 1
      by (by apply singleton_subseteq_l).
    rewrite size_union by apply disjoint_difference_r1, reflexivity.
    by rewrite size_singleton. }
  destruct n as [|n']; [lia|]. exists n'. split; [done|]. split; [lia|].
  intros d' Hd' Hin. apply elem_of_difference. split.
  - apply Hcover; [lia|done].
  - intros Heq%elem_of_singleton. by apply (Hinj d'); [lia|].
Qed.

Lemma truthy_present (m : gmap string record) (key : string) :
  truthy (m !! key) = true → key ∈ dom m.
Proof.
  intros Htrue. apply elem_of_dom. by destruct (m !! key).
Qed.

Variables (w : World) (path : string) (name : Z → string) (first : Z).

(** From the number [first] on, a greater duplicate number makes another
    local file name. *)
Hypothesis name_fresh :
  ∀ a b, (first ≤ a < b)%Z →
         os_path_join path (name a) ≠ os_path_join path (name b).

Lemma is_indexed_within (n : nat) :
  ∀ X media,
    name_with media = name →
    (first ≤ duplicate_number media)%Z →
    size X ≤ n →
    (∀ d, (duplicate_number media ≤ d)%Z →
          os_path_join path (name d) ∈ dom (db w) →
          os_path_join path (name d) ∈ X) →
    ∃ r, (duplicate_number media ≤ duplicate_number r.1)%Z ∧
         ∀ fuel, n < fuel → is_indexed fuel w path media = Some r.
Proof.
  induction n as [|n IH]; intros X media Hname Hfirst Hsize Hcover.
  all: set (key := os_path_join path (filename media)).
  all: destruct (truthy (db_get key w)) eqn:Htruthy;
    [|exists (media, Return false); split; [simpl; lia|];
      intros [|fuel] ?; [lia|]; simpl; fold key; by rewrite Htruthy].
  all: destruct (getitem (default ∅ (db_get key w)) "id") as [i|e] eqn:Hid;
    [|exists (media, Raise e); split; [simpl; lia|];
      intros [|fuel] ?; [lia|]; simpl; fold key; by rewrite Htruthy, Hid].
  all: destruct (bool_decide (i = id media)) eqn:Hsame;
    [exists (media, Return true); split; [simpl; lia|];
      intros [|fuel] ?; [lia|]; simpl; fold key;
      by rewrite Htruthy, Hid, Hsame|].
  all: apply truthy_present in Htruthy as Hpresent;
    unfold key, filename in Hpresent; rewrite Hname in Hpresent;
    destruct (probe_step _ X (λ d, os_path_join path (name d)) _ _
                (λ d' Hd', name_fresh _ d' (conj Hfirst Hd'))
                Hsize Hcover Hpresent)
      as (n' & Hn & Hsize' & Hcover').
  - discriminate.
  - injection Hn as <-.
    destruct (IH (X ∖ {[os_path_join path (name (duplicate_number media))]})
                (bump media) Hname ltac:(simpl; lia) Hsize' Hcover')
      as (r & Hr & Hrun).
    exists r. split; [simpl in Hr; lia|].
    intros [|fuel] ?; [lia|]. simpl. fold key.
    rewrite Htruthy, Hid, Hsame. apply Hrun. lia.
Qed.

Lemma has_local_version_within (n : nat) :
  ∀ X media,
    name_with media = name →
    (first ≤ duplicate_number media)%Z →
    size X ≤ n →
    (∀ d, (duplicate_number media ≤ d)%Z →
          os_path_join path (name d) ∈ dom (files w) →
          os_path_join path (name d) ∈ X) →
    ∃ r, (duplicate_number media ≤ duplicate_number r.1)%Z ∧
         ∀ fuel, n < fuel → has_local_version fuel w path media = Some r.
Proof.
  induction n as [|n IH]; intros X media Hname Hfirst Hsize Hcover.
  all: set (key := os_path_join path (filename media)).
  all: destruct (os_path_isfile key w) eqn:Hisfile;
    [|exists (media, Return false); split; [simpl; lia|];
      intros [|fuel] ?; [lia|]; simpl; fold key; by rewrite Hisfile].
  all: assert (os_path_join path (name (duplicate_number media))
               ∈ dom (files w)) as Hpresent
    by (apply elem_of_dom; rewrite <-Hname;
        by apply bool_decide_eq_true_1 in Hisfile).
  all: destruct (probe_step _ X (λ d, os_path_join path (name d)) _ _
                   (λ d' Hd', name_fresh _ d' (conj Hfirst Hd'))
                   Hsize Hcover Hpresent)
      as (n' & Hn & Hsize' & Hcover').
  1: discriminate.
  injection Hn as <-.
  destruct (IH (X ∖ {[os_path_join path (name (duplicate_number media))]})
              (bump media) Hname ltac:(simpl; lia) Hsize' Hcover')
      as (r & Hr & Hrun).
  simpl in Hr.
  destruct (truthy (db_get (id media) w)) eqn:Htruthy;
    [|exists r; split; [lia|]; intros [|fuel] ?; [lia|]; simpl; fold key;
      rewrite Hisfile, Htruthy; apply Hrun; lia].
  destruct (getitem (default ∅ (db_get (id media) w)) "filename")
    as [f|e] eqn:Hfile;
    [|exists (media, Raise e); split; [simpl; lia|];
      intros [|fuel] ?; [lia|]; simpl; fold key;
      by rewrite Hisfile, Htruthy, Hfile].
  destruct (bool_decide (f = key)) eqn:Hsame.
  - exists (media, Return true). split; [simpl; lia|].
    intros [|fuel] ?; [lia|]. simpl. fold key.
    by rewrite Hisfile, Htruthy, Hfile, Hsame.
  - exists r. split; [lia|]. intros [|fuel] ?; [lia|]. simpl. fold key.
    rewrite Hisfile, Htruthy, Hfile, Hsame. apply Hrun. lia.
Qed.

End Termination.

(** C10. The existence checks terminate. Let the local file names of the
    media differ from one duplicate number to any greater one, from its
    current number on. Then [is_indexed] returns as soon as its fuel
    exceeds the number of entries of the index, and [has_local_version] as
    soon as it exceeds the number of files on disk; the duplicate number of
    the media has not decreased. *)
Theorem existence_checks_terminate (w : World) (path : string)
    (media : Media) :
  (∀ a b, (duplicate_number media ≤ a < b)%Z →
     os_path_join path (name_with media a)
       ≠ os_path_join path (name_with media b)) →
  (∃ r, (duplicate_number media ≤ duplicate_number r.1)%Z ∧
        ∀ fuel, size (db w) < fuel →
                is_indexed fuel w path media = Some r) ∧
  (∃ r, (duplicate_number media ≤ duplicate_number r.1)%Z ∧
        ∀ fuel, size (files w) < fuel →
                has_local_version fuel w path media = Some r).
Proof.
  intros Hfresh. split.
  - rewrite <-size_dom.
    by apply (is_indexed_within w path (name_with media)
                (duplicate_number media) Hfresh _ (dom (db w)) media).
  - rewrite <-size_dom.
    by apply (has_local_version_within w path (name_with media)
                (duplicate_number media) Hfresh _ (dom (files w)) media).
Qed.

(** ** Download *)

Section Download.

Variables (drive : Drive) (progress_handler : bool) (media : Media).
Variables (temp_filename target_filename : string).

Implicit Types (w : World) (chunks : list bytes).

Lemma write_chunks_run chunks :
  ∀ w content,
    files w !! temp_filename = Some content →
    write_chunks temp_filename progress_handler chunks w =
      ({| dirs := dirs w;
          files := <[temp_filename := content ++ concat chunks]> (files w);
          db := db w; requests := requests w;
          progress := if progress_handler
                      then progress w + length chunks else progress w |},
       Return tt).
Proof.
  induction chunks as [|chunk chunks IH]; intros w content Hopen.
  - destruct w as [d f i r p]. simpl in *. unfold ret. do 2 f_equal.
    + by rewrite app_nil_r, insert_id.
    + destruct progress_handler; lia.
  - cbn [write_chunks]. unfold bind at 1, write_chunk, modify. simpl.
    rewrite Hopen. simpl.
    rewrite (IH _ (content ++ chunk)) by (simpl; apply lookup_insert_eq).
    simpl. do 2 f_equal.
    + by rewrite insert_insert_eq, (assoc_L (++)).
    + destruct progress_handler; lia.
Qed.

(** One attempt, the temporary file being one that can be opened. *)
Lemma transfer_to_run w :
  os_path_isdir temp_filename w = false →
  transfer_to drive progress_handler media temp_filename w =
    let t := get_media drive (requests w) (id media) in
    (after_transfer progress_handler temp_filename t w,
     match t with
     | Completes _ => Return tt
     | Fails _ e => Raise e
     end).
Proof.
  intros Hfile. unfold transfer_to, bind, open_bw, start_download.
  rewrite Hfile. simpl.
  destruct (get_media drive (requests w) (id media)) as [chunks|chunks e].
  - rewrite (write_chunks_run chunks _ [])
      by (simpl; apply lookup_insert_eq).
    unfold after_transfer. simpl. by rewrite insert_insert_eq.
  - rewrite (write_chunks_run chunks _ [])
      by (simpl; apply lookup_insert_eq).
    unfold after_transfer, throw. simpl. by rewrite insert_insert_eq.
Qed.

(** One attempt, a directory being under the name of the temporary file:
    the file cannot be opened, and no download is started. *)
Lemma transfer_to_blocked w :
  os_path_isdir temp_filename w = true →
  transfer_to drive progress_handler media temp_filename w
    = (w, Raise OSError).
Proof.
  intros Hdir. unfold transfer_to, bind, open_bw. by rewrite Hdir.
Qed.

(** Then every attempt ends so, and the loop leaves the world as it is. *)
Lemma retry_loop_blocked (n : nat) w :
  os_path_isdir temp_filename w = true →
  retry_loop n drive progress_handler media temp_filename target_filename w
    = (w, Return tt).
Proof.
  intros Hdir. induction n as [|n IH]; [done|].
  cbn [retry_loop]. unfold bind at 1, try_except, bind at 1.
  rewrite transfer_to_blocked by done. unfold ret at 1. cbn iota beta.
  exact IH.
Qed.

(** All [n] attempts fail: [n] downloads were started, the temporary file
    is what the last one left, and the loop ends normally. *)
Lemma retry_loop_exhausted (n : nat) :
  ∀ w,
    os_path_isdir temp_filename w = false →
    (∀ i, i < n →
       completes (get_media drive (requests w + i) (id media)) = false) →
    ∃ w',
      retry_loop n drive progress_handler media temp_filename target_filename
        w = (w', Return tt) ∧
      dirs w' = dirs w ∧ db w' = db w ∧ requests w' = requests w + n ∧
      files w' =
        match n with
        | O => files w
        | S m =>
            <[temp_filename :=
                concat (chunks_of
                          (get_media drive (requests w + m) (id media)))]>
              (files w)
        end.
Proof.
  induction n as [|n IH]; intros w Hfile Hfail.
  - exists w. simpl. unfold ret. by rewrite Nat.add_0_r.
  - cbn [retry_loop]. unfold bind at 1, try_except, bind at 1.
    rewrite transfer_to_run by done. cbn zeta.
    pose proof (Hfail 0 ltac:(lia)) as Hfirst. rewrite Nat.add_0_r in Hfirst.
    destruct (get_media drive (requests w) (id media)) as [chunks|chunks e]
      eqn:Ht; [discriminate|].
    unfold ret at 1. cbn iota beta.
    destruct (IH (after_transfer progress_handler temp_filename
                    (Fails chunks e) w))
      as (w' & -> & Hd & Hi & Hr & Hf).
    { exact Hfile. }
    { intros i Hi. simpl. rewrite <-Nat.add_succ_r. apply Hfail. lia. }
    exists w'. split; [done|]. simpl in *.
    split; [done|]. split; [done|]. split; [lia|].
    rewrite Hf. destruct n as [|m].
    + by rewrite Nat.add_0_r, Ht.
    + by rewrite insert_insert_eq, <-Nat.add_succ_r.
Qed.

(** The attempt after [k] failed ones completes: [k + 1] downloads were
    started and the temporary file holds what that download delivered.
    It is then renamed to the target; where the target is a directory the
    rename raises, the temporary file staying as it is. *)
Lemma retry_loop_completed (k : nat) chunks :
  ∀ n w,
    k < n →
    os_path_isdir temp_filename w = false →
    (∀ i, i < k →
       completes (get_media drive (requests w + i) (id media)) = false) →
    get_media drive (requests w + k) (id media) = Completes chunks →
    ∃ w',
      retry_loop n drive progress_handler media temp_filename target_filename
        w = (w', if os_path_isdir target_filename w
                 then Raise OSError else Return tt) ∧
      dirs w' = dirs w ∧ db w' = db w ∧ requests w' = requests w + S k ∧
      files w' =
        if os_path_isdir target_filename w
        then <[temp_filename := concat chunks]> (files w)
        else <[target_filename := concat chunks]>
               (delete temp_filename
                  (<[temp_filename := concat chunks]> (files w))).
Proof.
  induction k as [|k IH]; intros [|n] w Hk Hfile Hfail Hdone; try lia.
  - rewrite Nat.add_0_r in Hdone.
    cbn [retry_loop]. unfold bind at 1, try_except, bind at 1.
    rewrite transfer_to_run by done. cbn zeta. rewrite Hdone.
    unfold ret at 1. cbn iota beta. unfold os_rename.
    cbn [files after_transfer]. rewrite lookup_insert_eq.
    change (os_path_isdir target_filename
              (after_transfer progress_handler temp_filename
                 (Completes chunks) w))
      with (os_path_isdir target_filename w).
    destruct (os_path_isdir target_filename w).
    + eexists. split; [done|]. simpl. repeat split. lia.
    + eexists. split; [done|]. simpl. repeat split. lia.
  - cbn [retry_loop]. unfold bind at 1, try_except, bind at 1.
    rewrite transfer_to_run by done. cbn zeta.
    pose proof (Hfail 0 ltac:(lia)) as Hfirst. rewrite Nat.add_0_r in Hfirst.
    destruct (get_media drive (requests w) (id media)) as [c0|c0 e]
      eqn:Ht; [discriminate|].
    unfold ret at 1. cbn iota beta.
    destruct (IH n (after_transfer progress_handler temp_filename
                      (Fails c0 e) w))
      as (w' & -> & Hd & Hi & Hr & Hf).
    + lia.
    + exact Hfile.
    + intros i Hi. simpl. rewrite <-Nat.add_succ_r. apply Hfail. lia.
    + simpl. by rewrite <-Nat.add_succ_r.
    + exists w'. split; [done|]. simpl in *.
      split; [done|]. split; [done|]. split; [lia|].
      rewrite Hf.
      change (os_path_isdir target_filename
                (after_transfer progress_handler temp_filename
                   (Fails c0 e) w))
        with (os_path_isdir target_filename w).
      destruct (os_path_isdir target_filename w);
        by rewrite insert_insert_eq.
Qed.

End Download.

Section DownloadMedia.

Variables (drive : Drive) (media : Media) (path : string).
Variables (progress_handler : bool).

Implicit Types (w : World).

(** The first step of [download_media]: the folder is made when it is
    missing, which raises where it cannot be made. *)
Lemma folder_step w :
  (if os_path_isdir path w then ret tt w else os_makedirs path w)
  = if folder_ready path w then (with_folder path w, Return tt)
    else (w, Raise OSError).
Proof.
  unfold folder_ready, with_folder, os_makedirs, ret.
  destruct (os_path_isdir path w); [done|].
  destruct (String.eqb path ""); [done|].
  destruct (os_path_isfile path w); [done|]. simpl.
  induction (folders_above path) as [|above l IH]; [done|]. simpl.
  destruct (os_path_isfile above w); [done|]. simpl.
  destruct (existsb _ l), (forallb _ l); done.
Qed.

(** Where the folder cannot be made, [download_media] raises at once. *)
Lemma download_media_blocked (index_only : bool) w :
  folder_ready path w = false →
  download_media drive index_only media path progress_handler w
    = (w, Raise OSError).
Proof.
  intros Hblocked. unfold download_media. unfold bind at 1.
  by rewrite folder_step, Hblocked.
Qed.

(** An exception that leaves the loop leaves [download_media]. *)
Lemma download_media_loop_raises w w1 e :
  folder_ready path w = true →
  retry_loop 10 drive progress_handler media
    (os_path_join path ".temp-gphotos") (os_path_join path (filename media))
    (with_folder path w) = (w1, Raise e) →
  download_media drive false media path progress_handler w = (w1, Raise e).
Proof.
  intros Hready Hloop. unfold download_media. unfold bind at 1.
  rewrite folder_step, Hready. unfold bind at 1. by rewrite Hloop.
Qed.

(** [download_media] with downloads enabled, once the retry loop has run:
    the index entries are written, whatever the loop did, and the target
    name is returned. *)
Lemma download_media_after_loop w w1 :
  let target_filename := os_path_join path (filename media) in
  let temp_filename := os_path_join path ".temp-gphotos" in
  folder_ready path w = true →
  retry_loop 10 drive progress_handler media temp_filename target_filename
    (with_folder path w) = (w1, Return tt) →
  ∃ w2,
    download_media drive false media path progress_handler w
      = (w2, Return target_filename) ∧
    files w2 = files w1 ∧ requests w2 = requests w1 ∧
    db w2 !! target_filename = Some {["id" := id media]} ∧
    (∃ r, db w2 !! id media = Some r ∧
          (id media ≠ target_filename →
           r !! "filename" = Some target_filename)).
Proof.
  intros target_filename temp_filename Hready Hloop.
  unfold download_media. fold target_filename temp_filename.
  unfold bind at 1. rewrite folder_step, Hready.
  unfold bind at 1. rewrite Hloop.
  unfold bind, dcreate, dadd, modify, ret. simpl.
  repeat (rewrite lookup_insert_eq; simpl).
  eexists. split; [done|]. simpl. rewrite lookup_insert_eq.
  repeat split.
  destruct (decide (id media = target_filename)) as [->|Hne].
  - eexists. split; [apply lookup_insert_eq|]. intros Hne. by destruct Hne.
  - eexists. split.
    + rewrite !lookup_insert_ne by congruence. apply lookup_insert_eq.
    + intros _. rewrite !lookup_insert_ne by done. apply lookup_insert_eq.
Qed.

Lemma makedirs_keeps w :
  files (with_folder path w) = files w ∧ db (with_folder path w) = db w
  ∧ requests (with_folder path w) = requests w.
Proof. unfold with_folder. by destruct (os_path_isdir path w). Qed.

Lemma with_folder_isdir w : os_path_isdir path (with_folder path w) = true.
Proof.
  unfold with_folder. destruct (os_path_isdir path w) eqn:Hdir; [done|].
  apply bool_decide_eq_true_2. simpl.
  apply elem_of_union_l, elem_of_union_l. by apply elem_of_singleton.
Qed.

(** C1, what the code does where the claim fails. When each of the ten
    attempts fails, no file is put under the target name, yet
    [download_media] goes on past the loop: it writes the reverse entry and
    the forward entry of the item into the index and returns the target
    name as after a download. This is so in every world in which the
    folder is there or can be made; in the others, a file being under the
    name of the folder or of a folder above it, [os.makedirs] raises
    before anything is done. *)
Theorem failed_download_is_indexed w :
  let target_filename := os_path_join path (filename media) in
  (∀ i, i < 10 →
     completes (get_media drive (requests w + i) (id media)) = false) →
  target_filename ≠ os_path_join path ".temp-gphotos" →
  if folder_ready path w then
    ∃ w',
      download_media drive false media path progress_handler w
        = (w', Return target_filename) ∧
      files w' !! target_filename = files w !! target_filename ∧
      db w' !! target_filename = Some {["id" := id media]} ∧
      ∃ r, db w' !! id media = Some r ∧
           (id media ≠ target_filename →
            r !! "filename" = Some target_filename)
  else
    download_media drive false media path progress_handler w
      = (w, Raise OSError).
Proof.
  intros target_filename Hfail Htemp.
  destruct (folder_ready path w) eqn:Hready;
    [|by apply download_media_blocked].
  destruct (makedirs_keeps w) as (Hfiles & Hdb & Hrequests).
  assert (∃ w1,
    retry_loop 10 drive progress_handler media
      (os_path_join path ".temp-gphotos") target_filename
      (with_folder path w) = (w1, Return tt) ∧
    files w1 !! target_filename = files w !! target_filename)
    as (w1 & Hloop & Hf1).
  { destruct (os_path_isdir (os_path_join path ".temp-gphotos")
                (with_folder path w)) eqn:Hdir.
    - exists (with_folder path w).
      split; [by apply retry_loop_blocked|by rewrite Hfiles].
    - destruct (retry_loop_exhausted drive progress_handler media
                  (os_path_join path ".temp-gphotos") target_filename 10
                  (with_folder path w) Hdir)
        as (w1 & Hloop & _ & _ & _ & Hf1).
      { intros i Hi. rewrite Hrequests. by apply Hfail. }
      exists w1. split; [done|].
      by rewrite Hf1, lookup_insert_ne, Hfiles. }
  destruct (download_media_after_loop w w1 Hready Hloop)
    as (w2 & Hrun & Hf2 & _ & Hreverse & Hforward).
  exists w2. split; [done|]. split; [|done]. by rewrite Hf2.
Qed.

(** C2, what the code does where the claim fails. [download_media] starts
    at most ten downloads, each into a temporary file cut to nothing. In a
    world in which the folder is there or can be made and the temporary
    file can be opened: when the attempt after [k < 10] failed ones
    completes, [k + 1] downloads were started and the target holds what
    the last one delivered, unless the target name is a directory, where
    [os.rename] raises and nothing is indexed; when all ten fail, ten
    downloads were started, the temporary file holds what the tenth left,
    no file was renamed, and the call returns the target name normally: no
    exception is raised. In the other worlds: where a directory is under
    the name of the temporary file, every attempt fails on opening it, no
    download is started, and the call returns normally all the same; where
    the folder cannot be made, a file being under its name or under a
    folder above it, [os.makedirs] raises before anything is done. *)
Theorem retry_bound_returns_normally w :
  let target_filename := os_path_join path (filename media) in
  let temp_filename := os_path_join path ".temp-gphotos" in
  target_filename ≠ temp_filename →
  (∀ k chunks,
     k < 10 →
     (∀ i, i < k →
        completes (get_media drive (requests w + i) (id media)) = false) →
     get_media drive (requests w + k) (id media) = Completes chunks →
     folder_ready path w = true →
     os_path_isdir temp_filename (with_folder path w) = false →
     ∃ w',
       requests w' = requests w + S k ∧
       if os_path_isdir target_filename (with_folder path w)
       then
         download_media drive false media path progress_handler w
           = (w', Raise OSError) ∧
         db w' = db w ∧
         files w' !! temp_filename = Some (concat chunks) ∧
         files w' !! target_filename = files w !! target_filename
       else
         download_media drive false media path progress_handler w
           = (w', Return target_filename) ∧
         files w' !! target_filename = Some (concat chunks) ∧
         files w' !! temp_filename = None) ∧
  ((∀ i, i < 10 →
      completes (get_media drive (requests w + i) (id media)) = false) →
   folder_ready path w = true →
   os_path_isdir temp_filename (with_folder path w) = false →
   ∃ w',
     download_media drive false media path progress_handler w
       = (w', Return target_filename) ∧
     requests w' = requests w + 10 ∧
     files w' !! temp_filename =
       Some (concat (chunks_of
                       (get_media drive (requests w + 9) (id media)))) ∧
     files w' !! target_filename = files w !! target_filename) ∧
  (folder_ready path w = true →
   os_path_isdir temp_filename (with_folder path w) = true →
   ∃ w',
     download_media drive false media path progress_handler w
       = (w', Return target_filename) ∧
     requests w' = requests w ∧ files w' = files w) ∧
  (folder_ready path w = false →
   download_media drive false media path progress_handler w
     = (w, Raise OSError)).
Proof.
  intros target_filename temp_filename Htemp.
  destruct (makedirs_keeps w) as (Hfiles & Hdb & Hrequests).
  split; [|split; [|split]].
  - intros k chunks Hk Hfail Hdone Hready Hfile.
    destruct (retry_loop_completed drive progress_handler media
                temp_filename target_filename k chunks 10
                (with_folder path w))
      as (w1 & Hloop & _ & Hd1 & Hr1 & Hf1).
    { done. }
    { done. }
    { intros i Hi. rewrite Hrequests. by apply Hfail. }
    { by rewrite Hrequests. }
    destruct (os_path_isdir target_filename (with_folder path w)).
    + exists w1. split; [by rewrite Hr1, Hrequests|].
      split; [by apply download_media_loop_raises|].
      split; [by rewrite Hd1|]. rewrite Hf1. split.
      * apply lookup_insert_eq.
      * by rewrite lookup_insert_ne, Hfiles.
    + destruct (download_media_after_loop w w1 Hready Hloop)
        as (w2 & Hrun & Hf2 & Hr2 & _).
      exists w2. split; [by rewrite Hr2, Hr1, Hrequests|].
      split; [done|]. rewrite Hf2, Hf1. split.
      * apply lookup_insert_eq.
      * rewrite lookup_insert_ne by done. apply lookup_delete_eq.
  - intros Hfail Hready Hfile.
    destruct (retry_loop_exhausted drive progress_handler media
                temp_filename target_filename 10
                (with_folder path w) Hfile)
      as (w1 & Hloop & _ & _ & Hr1 & Hf1).
    { intros i Hi. rewrite Hrequests. by apply Hfail. }
    destruct (download_media_after_loop w w1 Hready Hloop)
      as (w2 & Hrun & Hf2 & Hr2 & _).
    exists w2. split; [done|]. split; [by rewrite Hr2, Hr1, Hrequests|].
    rewrite Hf2, Hf1, Hrequests, Hfiles. split.
    + apply lookup_insert_eq.
    + by rewrite lookup_insert_ne.
  - intros Hready Hdir.
    pose proof (retry_loop_blocked drive progress_handler media
                  temp_filename target_filename 10
                  (with_folder path w) Hdir) as Hloop.
    destruct (download_media_after_loop w _ Hready Hloop)
      as (w2 & Hrun & Hf2 & Hr2 & _).
    exists w2. split; [done|]. by rewrite Hr2, Hf2, Hrequests, Hfiles.
  - apply download_media_blocked.
Qed.

End DownloadMedia.

(** ** The theorems at work on the example worlds *)

Example is_indexed_bumps :
  is_indexed 3 taken_world "/photos" a_photo
  = Some (bump a_photo, Return false).
Proof. vm_compute. reflexivity. Qed.

Example has_local_version_bumps :
  has_local_version 3 taken_world "/photos" a_photo
  = Some (bump a_photo, Return false).
Proof. vm_compute. reflexivity. Qed.

Example is_indexed_out_of_fuel :
  is_indexed 1 taken_world "/photos" a_photo = None.
Proof. vm_compute. reflexivity. Qed.

Lemma marked_relative (n : nat) : startswith_sep (marked n "IMG_0001.jpg") = false.
Proof. by destruct n. Qed.

Lemma marked_inj (a b : nat) :
  marked a "IMG_0001.jpg" = marked b "IMG_0001.jpg" → a = b.
Proof.
  revert b. induction a as [|a IH]; intros [|b] Heq; simpl in Heq;
    [done|discriminate|discriminate|].
  injection Heq as Heq. f_equal. by apply IH.
Qed.

(** The names of [a_photo] under [/photos] differ from one duplicate number
    to the next. *)
Lemma a_photo_names_fresh (a b : Z) :
  (0 ≤ a < b)%Z →
  os_path_join "/photos" (name_with a_photo a)
    ≠ os_path_join "/photos" (name_with a_photo b).
Proof.
  intros Hab. unfold os_path_join. simpl. rewrite !marked_relative.
  intros Heq. apply (inj (String.app "/photos")) in Heq.
  apply (inj (String.app "/")) in Heq. apply marked_inj in Heq. lia.
Qed.

Lemma photos_folder_id_or_error_witness :
  get_photos_folder_id failing_drive = Raise NoGooglePhotosFolderError ∧
  get_photos_folder_id flaky_drive = Return "folder-0".
Proof.
  split.
  - apply (proj1 (photos_folder_id_or_error failing_drive)).
    exists []. split; reflexivity.
  - apply (proj2 (photos_folder_id_or_error flaky_drive)
             [ {["id" := "folder-0"]} ] "folder-0"); reflexivity.
Defined.

Lemma existence_checks_terminate_witness :
  (∃ r, (0 ≤ duplicate_number r.1)%Z ∧
        ∀ fuel, size (db taken_world) < fuel →
                is_indexed fuel taken_world "/photos" a_photo = Some r) ∧
  (∃ r, (0 ≤ duplicate_number r.1)%Z ∧
        ∀ fuel, size (files taken_world) < fuel →
                has_local_version fuel taken_world "/photos" a_photo
                  = Some r).
Proof.
  exact (existence_checks_terminate taken_world "/photos" a_photo
           a_photo_names_fresh).
Defined.

Lemma folder_ready_empty :
  folder_ready "/photos" empty_world = true
  ∧ os_path_isdir (os_path_join "/photos" ".temp-gphotos")
      (with_folder "/photos" empty_world) = false
  ∧ os_path_isdir (os_path_join "/photos" (filename a_photo))
      (with_folder "/photos" empty_world) = false.
Proof. repeat split; vm_compute; reflexivity. Qed.

Lemma failed_download_is_indexed_witness :
  ∃ w',
    download_media failing_drive false a_photo "/photos" false empty_world
      = (w', Return "/photos/IMG_0001.jpg") ∧
    files w' !! "/photos/IMG_0001.jpg" = None ∧
    db w' !! "/photos/IMG_0001.jpg" = Some {["id" := "id-1"]} ∧
    is_Some (db w' !! "id-1").
Proof.
  pose proof (failed_download_is_indexed failing_drive a_photo "/photos"
                false empty_world) as Hrun.
  cbv zeta in Hrun. rewrite (proj1 folder_ready_empty) in Hrun.
  destruct Hrun as (w' & Hrun & Hfile & Hreverse & r & Hforward & _).
  - intros i _. reflexivity.
  - intros Heq. vm_compute in Heq. discriminate Heq.
  - exists w'. split; [exact Hrun|]. split; [exact Hfile|].
    split; [exact Hreverse|]. exists r. exact Hforward.
Defined.

Lemma retry_bound_returns_normally_witness :
  (∃ w',
     download_media flaky_drive false a_photo "/photos" false empty_world
       = (w', Return "/photos/IMG_0001.jpg") ∧
     requests w' = 3 ∧
     files w' !! "/photos/IMG_0001.jpg" = Some [Byte.x89; Byte.x50] ∧
     files w' !! "/photos/.temp-gphotos" = None) ∧
  (∃ w',
     download_media failing_drive false a_photo "/photos" false empty_world
       = (w', Return "/photos/IMG_0001.jpg") ∧
     requests w' = 10 ∧
     files w' !! "/photos/.temp-gphotos" = Some [Byte.x89] ∧
     files w' !! "/photos/IMG_0001.jpg" = None).
Proof.
  destruct folder_ready_empty as (Hready & Htemp & Htarget).
  split.
  - destruct (retry_bound_returns_normally flaky_drive a_photo "/photos"
                false empty_world) as [Hdone _].
    + intros Heq. vm_compute in Heq. discriminate Heq.
    + destruct (Hdone 2 [[Byte.x89]; [Byte.x50]]) as (w' & Hrequests & Hrun).
      * lia.
      * intros [|[|i]] Hi; [reflexivity|reflexivity|lia].
      * reflexivity.
      * exact Hready.
      * exact Htemp.
      * rewrite Htarget in Hrun. destruct Hrun as (Hrun & Hfile & Hgone).
        exists w'. split; [exact Hrun|]. split; [exact Hrequests|].
        split; [exact Hfile|exact Hgone].
  - destruct (retry_bound_returns_normally failing_drive a_photo "/photos"
                false empty_world) as (_ & Hfail & _).
    + intros Heq. vm_compute in Heq. discriminate Heq.
    + apply Hfail; [|exact Hready|exact Htemp]. intros i _. reflexivity.
Defined.

End GooglePhotosSyncProofs.

(** * Further properties of the index *)

Module LocalDataExtras.
Import LocalData.

Section Files.

Implicit Types (db : Database) (row r : SyncRow).

Lemma put_file_accepted db row rowid :
  (put_file db row).2 = Return rowid →
  RemoteId row ∉ RemoteId <$> SyncFiles db.
Proof.
  unfold put_file, violates_unique_RemoteId.
  destruct (bool_decide _) eqn:Hheld; [done|].
  intros _. by apply bool_decide_eq_false_1 in Hheld.
Qed.

Lemma filter_none {A} (P : A → Prop) `{!∀ x, Decision (P x)} (l : list A) :
  (∀ x, x ∈ l → ¬ P x) → filter P l = [].
Proof.
  induction l as [|x l IH]; intros Hnone; [done|].
  rewrite filter_cons_False by (apply Hnone; left).
  apply IH. intros y Hy. apply Hnone. by right.
Qed.

(** X1. An accepted [put_file] is read back: [get_file_by_id] of the id
    returns the row just put, the lookup of any other id is as before, and
    the rowid returned is the new number of rows. *)
Theorem put_file_then_get_file_by_id db row rowid :
  (put_file db row).2 = Return rowid →
  get_file_by_id (put_file db row).1 (RemoteId row) = Some row ∧
  (∀ other, other ≠ RemoteId row →
     get_file_by_id (put_file db row).1 other = get_file_by_id db other) ∧
  rowid = Z.of_nat (S (length (SyncFiles db))).
Proof.
  intros Hok. pose proof (put_file_accepted db row rowid Hok) as Hnew.
  rewrite (LocalDataProofs.put_file_fresh db row Hnew) in Hok |- *.
  simpl in *. unfold get_file_by_id, select_by_id. simpl.
  split; [|split].
  - rewrite filter_app. fold (select_by_id db (RemoteId row)).
    rewrite (LocalDataProofs.select_by_id_fresh db _ Hnew). simpl.
    by rewrite filter_cons_True.
  - intros other Hother.
    rewrite filter_app, (filter_cons_False _ row) by congruence.
    by rewrite filter_nil, app_nil_r.
  - injection Hok as <-. rewrite length_app. simpl. f_equal. lia.
Qed.

(** X2. [get_file_by_path] answers with the oldest row of that folder and
    name: a row it returns is in the table under that folder and name, it
    returns [None] only when there is none, and after an accepted
    [put_file] of a row it returns the row that was there before under the
    new row's folder and name, or else the new row. *)
Theorem get_file_by_path_oldest db folder name :
  (∀ r, get_file_by_path db folder name = Some r →
        r ∈ SyncFiles db ∧ Path r = folder ∧ FileName r = name) ∧
  (get_file_by_path db folder name = None ↔
   ∀ r, r ∈ SyncFiles db → ¬ (Path r = folder ∧ FileName r = name)) ∧
  (∀ row rowid,
     (put_file db row).2 = Return rowid →
     Path row = folder → FileName row = name →
     get_file_by_path (put_file db row).1 folder name
       = Some (default row (get_file_by_path db folder name))).
Proof.
  unfold get_file_by_path, fetchone. split; [|split].
  - intros r Hr. apply head_Some_elem_of, list_elem_of_filter in Hr. tauto.
  - rewrite head_None. split.
    + intros Hnil r Hin Hr.
      assert (r ∈ filter (λ r, Path r = folder ∧ FileName r = name)
                         (SyncFiles db)) as Hmem
        by (by apply list_elem_of_filter).
      rewrite Hnil in Hmem. by apply elem_of_nil in Hmem.
    + intros Hnone. by apply filter_none.
  - intros row rowid Hok Hpath Hname.
    pose proof (put_file_accepted db row rowid Hok) as Hnew.
    rewrite (LocalDataProofs.put_file_fresh db row Hnew). simpl.
    rewrite filter_app, (filter_cons_True _ row) by done.
    by destruct (filter _ (SyncFiles db)).
Qed.

(** X3. The number resolved for a remote id without a record is greater
    than every number of the [(path, name)] group; so putting the resolved
    row keeps the numbers of the group pairwise distinct, and leaves every
    other group as it was. *)
Theorem file_duplicate_no_is_new db item path name :
  RemoteId item ∉ RemoteId <$> SyncFiles db →
  let dup := file_duplicate_no db (RemoteId item) path name in
  let db' := (put_file db (resolved item path name dup)).1 in
  Forall (λ r, (DuplicateNo r < dup)%Z) (select_group db path name) ∧
  (NoDup (DuplicateNo <$> select_group db path name) →
   NoDup (DuplicateNo <$> select_group db' path name)) ∧
  (∀ path' name', ¬ (path' = path ∧ name' = name) →
     select_group db' path' name' = select_group db path' name').
Proof.
  intros Hnew dup db'.
  assert (Forall (λ r, (DuplicateNo r < dup)%Z) (select_group db path name))
    as Habove.
  { subst dup. rewrite (LocalDataProofs.file_duplicate_no_fresh _ _ _ _ Hnew).
    destruct (sql_max _) as [m|] eqn:Hmax.
    - apply LocalDataProofs.sql_max_Some in Hmax as [_ Hall].
      rewrite Forall_fmap in Hall. eapply Forall_impl; [exact Hall|].
      simpl. intros r Hr. lia.
    - apply LocalDataProofs.sql_max_None, fmap_nil_inv in Hmax.
      rewrite Hmax. constructor. }
  assert (db' = set_SyncFiles db
                  (SyncFiles db ++ [resolved item path name dup])) as ->.
  { subst db'.
    by rewrite (LocalDataProofs.put_file_fresh db
                  (resolved item path name dup) Hnew). }
  split; [done|]. split.
  - intros Hnodup.
    rewrite LocalDataProofs.select_group_put, decide_True by done.
    rewrite fmap_app. apply NoDup_app. split; [done|]. split.
    + intros d Hd [->|Hnil]%elem_of_cons; [|by apply elem_of_nil in Hnil].
      apply list_elem_of_fmap in Hd as (r & Hdup & Hr).
      rewrite Forall_forall in Habove. specialize (Habove r Hr).
      simpl in Hdup. lia.
    + apply NoDup_singleton.
  - intros path' name' Hother.
    rewrite LocalDataProofs.select_group_put.
    rewrite decide_False
      by (simpl; intros [? ?]; apply Hother; split; congruence).
    apply app_nil_r.
Qed.

End Files.

Section SearchMore.

Implicit Types (db : Database) (r : SyncRow).

Lemma sql_like_percent (s : string) : sql_like "%" s = true.
Proof. induction s as [|c s IH]; [done|]. simpl in *. exact IH. Qed.

Lemma filter_all {A} (P : A → Prop) `{!∀ x, Decision (P x)} (l : list A) :
  (∀ x, x ∈ l → P x) → filter P l = l.
Proof.
  induction l as [|x l IH]; intros Hall; [done|].
  rewrite filter_cons_True by (apply Hall; left).
  f_equal. apply IH. intros y Hy. apply Hall. by right.
Qed.

(** X4. A search with the default patterns and no date yields every
    record of [SyncFiles], in the order of the table, the blocks of
    [BLOCK_SIZE] rows put end to end. *)
Theorem get_files_by_search_defaults db :
  get_files_by_search db "%" "%" None None = SyncFiles db.
Proof.
  unfold get_files_by_search.
  rewrite LocalDataProofs.yield_blocks_all. apply filter_all.
  intros r _. unfold search_where. by rewrite !sql_like_percent.
Qed.

(** X5. With both dates the search yields the records that it yields for
    the start date alone and also for the end date alone, and any search
    yields them in the order of the table: it is the table filtered. *)
Theorem get_files_by_search_window db drive_id media_type d1 d2 :
  (∀ r,
     r ∈ get_files_by_search db drive_id media_type (Some d1) (Some d2) ↔
     r ∈ get_files_by_search db drive_id media_type (Some d1) None ∧
     r ∈ get_files_by_search db drive_id media_type None (Some d2)) ∧
  get_files_by_search db drive_id media_type (Some d1) (Some d2)
    = filter (λ r, date_le (ModifyDate r) d2)
        (get_files_by_search db drive_id media_type (Some d1) None).
Proof.
  split.
  - intros r. rewrite !LocalDataProofs.get_files_by_search_elem. tauto.
  - unfold get_files_by_search. rewrite !LocalDataProofs.yield_blocks_all.
    rewrite list_filter_filter. apply list_filter_iff. intros r.
    unfold search_where. rewrite andb_true_r, !andb_True. tauto.
Qed.

End SearchMore.

Section Folders.

Implicit Types (db : Database) (rows : list FolderRow).

Lemma fmap_unchanged {A} (f : A → A) (l : list A) :
  (∀ x, x ∈ l → f x = x) → f <$> l = l.
Proof.
  induction l as [|x l IH]; intros Hid; [done|]. rewrite fmap_cons.
  rewrite (Hid x) by left. f_equal. apply IH. intros y Hy. apply Hid.
  by right.
Qed.

Lemma filter_parent_update path parent_id rows :
  filter (λ r, parent_is parent_id r)
    ((λ r, if parent_is parent_id r then set_FolderPath path r else r)
       <$> rows)
  = set_FolderPath path <$> filter (λ r, parent_is parent_id r) rows.
Proof.
  induction rows as [|r rows IH]; [done|]. rewrite fmap_cons.
  destruct (parent_is parent_id r) eqn:Hparent.
  - rewrite filter_cons_True
      by (change (Is_true (parent_is parent_id r)); by rewrite Hparent).
    rewrite (filter_cons_True _ r) by (simpl; rewrite Hparent; exact I).
    by rewrite fmap_cons, IH.
  - rewrite filter_cons_False by (simpl; rewrite Hparent; exact id).
    by rewrite (filter_cons_False _ r)
      by (simpl; rewrite Hparent; exact id).
Qed.

(** X6. [update_drive_folder_path(path, parent_id)] yields the id and name
    of exactly the folders whose parent is [parent_id], in table order;
    afterwards the path of a folder is [path] if its parent is [parent_id]
    and is as before otherwise. For a [parent_id] of [None] no folder is a
    child, not even one without parent: nothing is yielded or changed. *)
Theorem update_drive_folder_path_children db path parent :
  (update_drive_folder_path db path (Some parent)).2
    = (λ r, (FolderId r, FolderName r))
        <$> filter (λ r, ParentId r = Some parent) (DriveFolders db) ∧
  (∀ folder_id r,
     fetchone (filter (λ r, FolderId r = folder_id) (DriveFolders db))
       = Some r →
     get_drive_folder_path
       (update_drive_folder_path db path (Some parent)).1 folder_id
     = if decide (ParentId r = Some parent) then Some path
       else FolderPath r) ∧
  update_drive_folder_path db path None = (db, []).
Proof.
  split; [|split].
  - unfold update_drive_folder_path. cbn [snd].
    rewrite filter_parent_update, <-list_fmap_compose.
    unfold compose. simpl. f_equal.
    apply list_filter_iff. intros r. unfold parent_is.
    destruct (ParentId r) as [p|]; [|naive_solver].
    rewrite bool_decide_spec. naive_solver.
  - intros folder_id r Hr.
    unfold get_drive_folder_path, update_drive_folder_path.
    cbn [fst DriveFolders set_DriveFolders].
    rewrite LocalDataProofs.select_folder_update.
    destruct (filter _ (DriveFolders db)) as [|r' l]; [done|].
    injection Hr as ->. simpl. unfold parent_is.
    destruct (ParentId r) as [p|]; [|by rewrite decide_False].
    destruct (decide (p = parent)) as [->|Hne].
    + by rewrite bool_decide_eq_true_2, decide_True.
    + rewrite bool_decide_eq_false_2 by done.
      by rewrite decide_False by congruence.
  - unfold update_drive_folder_path.
    assert (∀ r, parent_is None r = false) as Hnone
      by (intros r; unfold parent_is; by destruct (ParentId r)).
    rewrite fmap_unchanged by (intros r _; by rewrite Hnone).
    rewrite filter_none by (intros r _; simpl; rewrite Hnone; exact id).
    by destruct db.
Qed.

Lemma delete_conflicting_others folder_id other rows :
  other ≠ folder_id →
  filter (λ r, FolderId r = other) (delete_conflicting folder_id rows)
  = filter (λ r, FolderId r = other) rows.
Proof.
  intros Hother. unfold delete_conflicting. rewrite list_filter_filter.
  apply list_filter_iff. intros r. split; [tauto|]. intros Hr.
  split; [done|]. congruence.
Qed.

(** X7. [put_drive_folder] touches the one folder: the path read for any
    other folder id is as before, the table then holds exactly one row for
    the folder put, and folder ids that were pairwise distinct remain
    so. *)
Theorem put_drive_folder_others db folder_id parent_id name :
  (∀ other, other ≠ folder_id →
     get_drive_folder_path (put_drive_folder db folder_id parent_id name)
       other = get_drive_folder_path db other) ∧
  length (filter (λ r, FolderId r = folder_id)
            (DriveFolders (put_drive_folder db folder_id parent_id name)))
    = 1 ∧
  (NoDup (FolderId <$> DriveFolders db) →
   NoDup (FolderId <$>
            DriveFolders (put_drive_folder db folder_id parent_id name))).
Proof.
  split; [|split].
  - intros other Hother. unfold get_drive_folder_path, put_drive_folder.
    cbn [DriveFolders set_DriveFolders].
    rewrite filter_app, delete_conflicting_others by done.
    rewrite (filter_cons_False _ _ []) by (simpl; congruence).
    by rewrite filter_nil, app_nil_r.
  - by rewrite LocalDataProofs.select_folder_put.
  - intros Hnodup. unfold put_drive_folder.
    cbn [DriveFolders set_DriveFolders]. rewrite fmap_app. simpl.
    apply NoDup_app. split; [|split].
    + unfold delete_conflicting.
      induction (DriveFolders db) as [|r rows IH]; [constructor|].
      rewrite fmap_cons in Hnodup. apply NoDup_cons in Hnodup as [Hr Hrows].
      destruct (decide (FolderId r ≠ folder_id)) as [Hne|Heq].
      * rewrite filter_cons_True by done. rewrite fmap_cons.
        apply NoDup_cons. split; [|by apply IH].
        intros (r' & Hid & Hin%list_elem_of_filter)%list_elem_of_fmap.
        apply Hr. rewrite Hid. apply list_elem_of_fmap_2. tauto.
      * rewrite filter_cons_False by done. by apply IH.
    + intros i (r & -> & Hin%list_elem_of_filter)%list_elem_of_fmap
        [Heq|Hnil]%elem_of_cons; [tauto|by apply elem_of_nil in Hnil].
    + apply NoDup_singleton.
Qed.

End Folders.

Section ScanDatesProofs.

Variable pydate : Type.
Variable date_to_string : pydate → string.
Variable string_to_date : string → pydate.

Implicit Types (db : Database) (d : pydate).

Lemma select_globals_update (f : GlobalsRow → GlobalsRow) db :
  (∀ g, Id (f g) = Id g) →
  filter (λ g, Id g = 1%Z) (Globals (update_globals f db))
  = f <$> filter (λ g, Id g = 1%Z) (Globals db).
Proof.
  intros Hid. unfold update_globals. simpl.
  induction (Globals db) as [|g rows IH]; [done|]. rewrite fmap_cons.
  destruct (decide (Id g = 1%Z)) as [Hone|Hother].
  - rewrite filter_cons_True by (by rewrite Hid).
    rewrite (filter_cons_True _ g) by done. by rewrite fmap_cons, IH.
  - rewrite filter_cons_False by done.
    by rewrite (filter_cons_False _ g) by done.
Qed.

(** X8. The scan dates are written one by one: after
    [set_scan_dates(drive_last_date=d)] the drive date read back is [d]
    and the picasa date is the one read before, and the other way round;
    with no date given nothing is written. A date [d] is read back when
    [Utils] converts it to a text that is not empty and converts that text
    back to [d]. *)
Theorem scan_dates_round_trip db d drive picasa :
  get_scan_dates pydate string_to_date db = Return (drive, picasa) →
  date_to_string d ≠ "" →
  string_to_date (date_to_string d) = d →
  get_scan_dates pydate string_to_date
    (set_scan_dates pydate date_to_string db None (Some d))
    = Return (Some d, picasa) ∧
  get_scan_dates pydate string_to_date
    (set_scan_dates pydate date_to_string db (Some d) None)
    = Return (drive, Some d) ∧
  set_scan_dates pydate date_to_string db None None = db.
Proof.
  intros Hget Htext Hback. unfold get_scan_dates in *.
  split; [|split]; [| |done].
  - unfold set_scan_dates. rewrite (select_globals_update _ db) by done.
    destruct (filter _ (Globals db)) as [|res rows]; [done|].
    simpl in *. injection Hget as _ <-.
    apply String.eqb_neq in Htext. by rewrite Htext, Hback.
  - unfold set_scan_dates. rewrite (select_globals_update _ db) by done.
    destruct (filter _ (Globals db)) as [|res rows]; [done|].
    simpl in *. injection Hget as <- _.
    apply String.eqb_neq in Htext. by rewrite Htext, Hback.
Qed.

(** X9. On a store without the row of [Globals], reading the scan dates
    raises [TypeError], and setting them writes nothing: reading raises
    as before. *)
Theorem scan_dates_without_globals db picasa_last_date drive_last_date :
  stored_version db = None →
  get_scan_dates pydate string_to_date db = Raise TypeError ∧
  get_scan_dates pydate string_to_date
    (set_scan_dates pydate date_to_string db picasa_last_date
       drive_last_date)
  = Raise TypeError.
Proof.
  unfold stored_version, get_scan_dates. intros Hnone.
  assert (filter (λ g, Id g = 1%Z) (Globals db) = []) as Hrows
    by (by destruct (filter _ (Globals db))).
  split; [by rewrite Hrows|].
  unfold set_scan_dates.
  destruct drive_last_date as [d|], picasa_last_date as [p|];
    rewrite ?select_globals_update by done;
    rewrite ?select_globals_update by done; by rewrite Hrows.
Qed.

End ScanDatesProofs.

Section FindFiles.

Implicit Types (db : Database) (row r : SyncRow).

Lemma with_rowid_app (rows : list SyncRow) (row : SyncRow) :
  with_rowid (rows ++ [row])
  = with_rowid rows ++ [(Z.of_nat (S (length rows)), row)].
Proof.
  unfold with_rowid. rewrite imap_app. simpl. by rewrite Nat.add_0_r.
Qed.

Lemma elem_of_with_rowid (rows : list SyncRow) (k : Z) (r : SyncRow) :
  (k, r) ∈ with_rowid rows → r ∈ rows ∧ (1 ≤ k ≤ Z.of_nat (length rows))%Z.
Proof.
  unfold with_rowid. intros (i & x & [= -> ->] & Hi)%elem_of_lookup_imap_1.
  split; [by eapply list_elem_of_lookup_2|].
  apply lookup_lt_Some in Hi. lia.
Qed.

(** What the [WHERE] clause selects, said of the columns: the file name and
    the size match their patterns, and the date column holds a date that
    matches its pattern. *)
Lemma find_where_columns filename exif_date size use_create r :
  find_where filename exif_date size use_create r ↔
  sql_like filename (FileName r) ∧
  (∃ d, (if use_create then CreateDate r else ModifyDate r) = Some d ∧
        sql_like exif_date d) ∧
  sql_like size (sql_text (FileSize r)).
Proof.
  unfold find_where.
  assert (∀ col : option datetime,
            like_nullable exif_date col
            ↔ ∃ d, col = Some d ∧ sql_like exif_date d) as Hcol.
  { intros [c|]; simpl; split.
    - intros Hdate. by exists c.
    - by intros (d' & [= <-] & Hdate).
    - intros Hnull. exact (False_ind _ Hnull).
    - by intros (d' & Hnone & _). }
  destruct use_create; by rewrite Hcol.
Qed.

(** The rowids are those of the rows, each once. *)
Lemma with_rowid_NoDup (rows : list SyncRow) : NoDup (with_rowid rows).*1.
Proof.
  unfold with_rowid. rewrite fmap_imap.
  rewrite (imap_ext _ (λ j _, Z.of_nat (S j))) by done.
  rewrite imap_seq_0. apply NoDup_fmap_2_strong; [|apply NoDup_seq].
  intros a b _ _ Heq. lia.
Qed.

(** X10. [find_file_ids_dates] never returns an empty list: it returns
    [None] exactly when no row matches, and else the rowid and create date
    of every row that matches, each once: a pair [(k, created)] is
    returned exactly when the [k]-th row of the table matches and
    [created] is its create date. A row matches when its file name and
    size match their patterns and its date column, the one [use_create]
    chooses, holds a date that matches the pattern: a row whose date
    column is NULL is not found. A row that matches is found under the
    rowid that [put_file] returned for it. *)
Theorem find_file_ids_dates_found db (filename exif_date size : string)
    (use_create : bool) :
  let found (r : SyncRow) : Prop :=
    sql_like filename (FileName r) ∧
    (∃ d, (if use_create then CreateDate r else ModifyDate r) = Some d ∧
          sql_like exif_date d) ∧
    sql_like size (sql_text (FileSize r)) in
  find_file_ids_dates db filename exif_date size use_create ≠ Some [] ∧
  (find_file_ids_dates db filename exif_date size use_create = None ↔
   ∀ r, r ∈ SyncFiles db → ¬ found r) ∧
  (∀ l,
     find_file_ids_dates db filename exif_date size use_create = Some l →
     (∀ k created,
        (k, created) ∈ l ↔
        ∃ i r, k = Z.of_nat (S i) ∧ SyncFiles db !! i = Some r ∧
               found r ∧ CreateDate r = created) ∧
     NoDup l.*1) ∧
  (∀ row rowid,
     (put_file db row).2 = Return rowid →
     found row →
     ∃ l, find_file_ids_dates (put_file db row).1 filename exif_date size
            use_create = Some l ∧
          (rowid, CreateDate row) ∈ l).
Proof.
  intros found.
  assert (∀ r, find_where filename exif_date size use_create r ↔ found r)
    as Hfound by (intros r; apply find_where_columns).
  unfold find_file_ids_dates. split; [|split; [|split]].
  - case_bool_decide as Hlen; [done|]. intros [= Hnil].
    apply fmap_nil_inv in Hnil. by rewrite Hnil in Hlen.
  - case_bool_decide as Hlen; split; try done.
    + intros _ r Hin Hr%Hfound. apply length_zero_iff_nil in Hlen.
      apply list_elem_of_lookup in Hin as [i Hi].
      assert ((Z.of_nat (S i), r) ∈ filter
                (λ key : Z * SyncRow,
                   find_where filename exif_date size use_create key.2)
                (with_rowid (SyncFiles db))) as Hmem.
      { apply list_elem_of_filter. split; [done|].
        unfold with_rowid.
        by apply (elem_of_lookup_imap_2 (λ i r, (Z.of_nat (S i), r)) _ r i). }
      rewrite Hlen in Hmem. by apply elem_of_nil in Hmem.
    + intros Hnone. destruct Hlen. apply length_zero_iff_nil, filter_none.
      intros [k r] [Hin _]%elem_of_with_rowid Hr%Hfound.
      by apply (Hnone r).
  - intros l. case_bool_decide; [done|]. intros [= <-]. split.
    + intros k created. rewrite list_elem_of_fmap. split.
      * intros ([k' r] & [= -> ->] & Hr).
        apply list_elem_of_filter in Hr as [Hwhere Hin].
        apply elem_of_lookup_imap in Hin as (i & y & [= -> ->] & Hi).
        exists i, y. split; [done|]. split; [done|].
        split; [by apply Hfound|done].
      * intros (i & r & -> & Hi & Hr & <-).
        exists (Z.of_nat (S i), r). split; [done|].
        apply list_elem_of_filter. split; [by apply Hfound|].
        by apply (elem_of_lookup_imap_2 (λ i r, (Z.of_nat (S i), r)) _ r i).
    + rewrite <-list_fmap_compose.
      apply (sublist_NoDup _ (with_rowid (SyncFiles db)).*1);
        [apply with_rowid_NoDup|].
      apply fmap_sublist, sublist_filter.
  - intros row rowid Hok Hwhere%Hfound.
    pose proof (put_file_accepted db row rowid Hok) as Hnew.
    rewrite (LocalDataProofs.put_file_fresh db row Hnew) in Hok |- *.
    simpl in Hok. injection Hok as <-. cbn [fst SyncFiles set_SyncFiles].
    rewrite with_rowid_app, filter_app.
    rewrite (filter_cons_True _ _ []) by done. rewrite filter_nil.
    rewrite length_app. simpl.
    rewrite bool_decide_eq_false_2 by lia.
    eexists. split; [done|]. rewrite fmap_app. apply elem_of_app. right.
    rewrite length_app. simpl. rewrite Nat.add_1_r. left.
Qed.

End FindFiles.

Section Opening.

Implicit Types (self : Self) (fs : FileSystem).

Lemma gate_keeps_current self fs :
  stored_version (con self) = Some VERSION →
  check_schema_version self fs = (self, fs, Return tt).
Proof.
  intros (row & Hrow & Hv)%LocalDataProofs.stored_version_row.
  unfold check_schema_version. rewrite Hrow. simpl. rewrite Hv.
  by rewrite !decide_False by apply (irreflexivity Qclt).
Qed.

(** X11. The gate on a current store has no side effect: when the store
    carries [VERSION], [check_schema_version] returns normally with the
    object and the disk as they were, and so does opening a store that
    exists ([flush_index] at its default); when [Globals] has no row for
    the version, the gate raises [TypeError], again with nothing changed. *)
Theorem current_store_is_kept :
  (∀ self fs,
     stored_version (con self) = Some VERSION →
     check_schema_version self fs = (self, fs, Return tt)) ∧
  (∀ root_folder fs db,
     os_path_exists root_folder fs = true →
     files fs !! os_path_join root_folder DB_FILE_NAME = Some db →
     stored_version db = Some VERSION →
     init root_folder false fs =
       ({| file_name := os_path_join root_folder DB_FILE_NAME; con := db |},
        fs, Return tt)) ∧
  (∀ self fs,
     stored_version (con self) = None →
     check_schema_version self fs = (self, fs, Raise TypeError)).
Proof.
  split; [|split].
  - apply gate_keeps_current.
  - intros root_folder fs db Hroot Hfile Hv.
    rewrite (LocalDataProofs.init_existing_store _ _ db) by done.
    by apply gate_keeps_current.
  - intros self fs. unfold stored_version, check_schema_version.
    by destruct (fetchone _).
Qed.



(** X13. What [store] commits is what the next opening sees: for an
    object of a current store under an existing root folder, opening
    again after [store] gives the object back, with the disk as [store]
    left it. *)
Theorem store_then_open root_folder self fs :
  file_name self = os_path_join root_folder DB_FILE_NAME →
  os_path_exists root_folder fs = true →
  stored_version (con self) = Some VERSION →
  init root_folder false (store self fs) = (self, store self fs, Return tt)
  ∧ files (store self fs) !! file_name self = Some (con self).
Proof.
  intros Hname Hroot Hv.
  assert (files (store self fs) !! os_path_join root_folder DB_FILE_NAME
          = Some (con self)) as Hfile.
  { unfold store, commit. simpl. rewrite Hname. apply lookup_insert_eq. }
  split; [|by rewrite Hname].
  rewrite (LocalDataProofs.init_existing_store _ _ (con self)).
  - rewrite gate_keeps_current by done. destruct self as [n c].
    simpl in Hname. by rewrite Hname.
  - unfold os_path_exists, store, commit in *. simpl.
    apply orb_true_iff in Hroot as [Hdir|Hf]; [by rewrite Hdir|].
    apply orb_true_iff. right. apply bool_decide_eq_true_2.
    apply bool_decide_eq_true_1 in Hf.
    destruct (decide (file_name self = root_folder)) as [->|Hne].
    + by rewrite lookup_insert_eq.
    + by rewrite lookup_insert_ne.
  - done.
Qed.

End Opening.

(** ** The further properties at work on the example stores *)

Example find_file_ids_dates_by_name :
  find_file_ids_dates one_photo "IMG%" "%" "%" false
    = Some [(1%Z, Some "2021-06-01 00:00:00")]
  ∧ find_file_ids_dates one_photo "DSC%" "%" "%" false = None
  ∧ find_file_ids_dates one_photo "%" "2021-06%" "%" true
    = Some [(1%Z, Some "2021-06-01 00:00:00")]
  ∧ find_file_ids_dates one_photo "%" "2021-06%" "%" false = None.
Proof. repeat split. Qed.

Lemma put_file_then_get_file_by_id_witness :
  get_file_by_id (put_file one_photo (photo "id-2" 5)).1 "id-2"
    = Some (photo "id-2" 5)
  ∧ get_file_by_id (put_file one_photo (photo "id-2" 5)).1 "id-1"
    = Some (photo "id-1" 4).
Proof.
  destruct (put_file_then_get_file_by_id one_photo (photo "id-2" 5) 2
              eq_refl) as (Hnew & Hothers & _).
  split; [exact Hnew|].
  exact (Hothers "id-1" ltac:(discriminate)).
Defined.

Lemma file_duplicate_no_is_new_witness :
  Forall (λ r, (DuplicateNo r < 5)%Z)
    (select_group one_photo "/photos/2021" "IMG_0001.jpg").
Proof.
  refine (proj1 (file_duplicate_no_is_new one_photo (photo "id-2" 0)
                   "/photos/2021" "IMG_0001.jpg" _)).
  apply (bool_decide_unpack _). vm_compute. exact I.
Defined.

Lemma scan_dates_round_trip_witness :
  get_scan_dates string id
    (set_scan_dates string id gphotos_create None
       (Some "2021-06-01 00:00:00"))
  = Return (Some "2021-06-01 00:00:00", None).
Proof.
  refine (proj1 (scan_dates_round_trip string id id gphotos_create
                   "2021-06-01 00:00:00" None None eq_refl _ eq_refl)).
  discriminate.
Defined.

Lemma scan_dates_without_globals_witness :
  get_scan_dates string id
    (set_scan_dates string id no_rows None (Some "2021-06-01 00:00:00"))
  = Raise TypeError.
Proof.
  exact (proj2 (scan_dates_without_globals string id id no_rows None
                  (Some "2021-06-01 00:00:00") eq_refl)).
Defined.


Lemma store_then_open_witness :
  init "/photos" false (store (opened one_photo) (disk_with gphotos_create))
  = (opened one_photo, store (opened one_photo) (disk_with gphotos_create),
     Return tt).
Proof.
  refine (proj1 (store_then_open "/photos" (opened one_photo)
                   (disk_with gphotos_create) _ _ _)).
  - reflexivity.
  - vm_compute. reflexivity.
  - reflexivity.
Defined.

End LocalDataExtras.

(** * Further properties of the driver *)

Module GooglePhotosSyncExtras.
Import GooglePhotosSync.

Section DownloadMore.

Variables (drive : Drive) (media : Media) (path : string).
Variables (progress_handler : bool).

Implicit Types (w : World).

(** Whatever the remote side does, the retry loop starts at most [n]
    downloads, touches no file but the temporary one and the target, and
    leaves the folders and the index alone. It ends normally unless the
    rename raises, which it does only where the target is a directory. *)
Lemma retry_loop_frame temp_filename target_filename (n : nat) :
  ∀ w,
    ∃ w1 o,
      retry_loop n drive progress_handler media temp_filename target_filename
        w = (w1, o) ∧
      dirs w1 = dirs w ∧ db w1 = db w ∧
      requests w ≤ requests w1 ≤ requests w + n ∧
      (∀ other, other ≠ temp_filename → other ≠ target_filename →
                files w1 !! other = files w !! other) ∧
      (o = Return tt ∨
       o = Raise OSError ∧ requests w < requests w1 ∧
       os_path_isdir target_filename w = true).
Proof.
  induction n as [|n IH]; intros w.
  - exists w, (Return tt). simpl. unfold ret.
    repeat split; try lia. by left.
  - destruct (os_path_isdir temp_filename w) eqn:Hfile.
    { exists w, (Return tt).
      rewrite GooglePhotosSyncProofs.retry_loop_blocked by done.
      repeat split; try lia. by left. }
    cbn [retry_loop]. unfold bind at 1, try_except, bind at 1.
    rewrite GooglePhotosSyncProofs.transfer_to_run by done. cbn zeta.
    destruct (get_media drive (requests w) (id media)) as [chunks|chunks e].
    + unfold ret at 1. cbn iota beta. unfold os_rename.
      cbn [files after_transfer]. rewrite lookup_insert_eq.
      change (os_path_isdir target_filename
                (after_transfer progress_handler temp_filename
                   (Completes chunks) w))
        with (os_path_isdir target_filename w).
      destruct (os_path_isdir target_filename w).
      * eexists _, _. split; [done|]. simpl.
        split; [done|]. split; [done|]. split; [lia|]. split.
        -- intros other Htemp Htarget. by rewrite lookup_insert_ne.
        -- right. repeat split. lia.
      * eexists _, _. split; [done|]. simpl.
        split; [done|]. split; [done|]. split; [lia|]. split; [|by left].
        intros other Htemp Htarget.
        by rewrite lookup_insert_ne, lookup_delete_ne, lookup_insert_ne.
    + unfold ret at 1. cbn iota beta.
      destruct (IH (after_transfer progress_handler temp_filename
                      (Fails chunks e) w))
        as (w1 & o & -> & Hd & Hi & Hr & Hf & Ho).
      exists w1, o. split; [done|]. simpl in *.
      split; [done|]. split; [done|]. split; [lia|]. split.
      * intros other Htemp Htarget.
        rewrite Hf by done. by rewrite lookup_insert_ne.
      * destruct Ho as [->|(-> & Hlt & Hdir)]; [by left|].
        right. split; [done|]. split; [lia|exact Hdir].
Qed.

(** The part of [download_media] between the folder and the index, that is
    the loop: it leaves the index alone, starts at most ten downloads and
    touches no file but the temporary one and the target; it ends normally
    unless the rename raises. *)
Lemma before_index_frame (index_only : bool) w :
  let target_filename := os_path_join path (filename media) in
  let temp_filename := os_path_join path ".temp-gphotos" in
  ∃ w1 o,
    (if index_only then (ret tt : M unit)
     else retry_loop 10 drive progress_handler media temp_filename
            target_filename)
      (with_folder path w) = (w1, o) ∧
    db w1 = db w ∧ requests w ≤ requests w1 ≤ requests w + 10 ∧
    (∀ other, other ≠ temp_filename → other ≠ target_filename →
              files w1 !! other = files w !! other) ∧
    (o = Return tt ∨
     o = Raise OSError ∧ index_only = false ∧ requests w < requests w1 ∧
     os_path_isdir target_filename (with_folder path w) = true).
Proof.
  intros target_filename temp_filename.
  destruct (GooglePhotosSyncProofs.makedirs_keeps path w)
    as (Hfiles & Hdb & Hrequests).
  destruct index_only.
  - eexists _, _. split; [done|]. rewrite Hdb, Hrequests, Hfiles.
    repeat split; try lia. by left.
  - destruct (retry_loop_frame temp_filename target_filename 10
                (with_folder path w))
      as (w1 & o & Hloop & _ & Hd & Hr & Hf & Ho).
    exists w1, o. split; [done|]. rewrite Hd, Hdb. split; [done|].
    rewrite Hrequests in Hr. split; [done|]. split.
    + intros other Htemp Htarget. by rewrite Hf, Hfiles.
    + destruct Ho as [->|(-> & Hlt & Hdir)]; [by left|].
      right. split; [done|]. split; [done|]. split; [lia|exact Hdir].
Qed.

(** [download_media] from the world the loop left: the index is the one
    with the two entries of the item written. *)
Lemma download_media_indexes (index_only : bool) w w1 :
  let target_filename := os_path_join path (filename media) in
  let temp_filename := os_path_join path ".temp-gphotos" in
  folder_ready path w = true →
  (if index_only then (ret tt : M unit)
   else retry_loop 10 drive progress_handler media temp_filename
          target_filename)
    (with_folder path w) = (w1, Return tt) →
  download_media drive index_only media path progress_handler w
    = (set_db w1 (indexed media target_filename (db w1)),
       Return target_filename).
Proof.
  intros target_filename temp_filename Hready Hloop.
  unfold download_media. fold target_filename temp_filename.
  unfold bind at 1.
  rewrite GooglePhotosSyncProofs.folder_step, Hready.
  unfold bind at 1. rewrite Hloop.
  unfold bind, dcreate, dadd, modify, ret. simpl.
  repeat (rewrite lookup_insert_eq; simpl).
  unfold set_db, indexed. simpl. do 2 f_equal.
  by rewrite !insert_insert_eq.
Qed.

(** An exception that leaves the loop leaves [download_media], before the
    index is written. *)
Lemma download_media_raises (index_only : bool) w w1 e :
  let target_filename := os_path_join path (filename media) in
  let temp_filename := os_path_join path ".temp-gphotos" in
  folder_ready path w = true →
  (if index_only then (ret tt : M unit)
   else retry_loop 10 drive progress_handler media temp_filename
          target_filename)
    (with_folder path w) = (w1, Raise e) →
  download_media drive index_only media path progress_handler w
    = (w1, Raise e).
Proof.
  intros target_filename temp_filename Hready Hloop.
  unfold download_media. fold target_filename temp_filename.
  unfold bind at 1.
  rewrite GooglePhotosSyncProofs.folder_step, Hready.
  unfold bind at 1. by rewrite Hloop.
Qed.

(** When [download_media] returns, it returns the target name, with the
    two entries of the item written to the index. *)
Lemma download_media_returned (index_only : bool) w w' name :
  let target_filename := os_path_join path (filename media) in
  download_media drive index_only media path progress_handler w
    = (w', Return name) →
  name = target_filename ∧ db w' = indexed media target_filename (db w).
Proof.
  intros target_filename Hreturn.
  destruct (folder_ready path w) eqn:Hready.
  - destruct (before_index_frame index_only w)
      as (w1 & o & Hloop & Hd1 & _ & _ & Ho).
    destruct Ho as [->|(-> & _)].
    + rewrite (download_media_indexes index_only w w1 Hready Hloop)
        in Hreturn.
      injection Hreturn as <- <-. simpl. by rewrite Hd1.
    + rewrite (download_media_raises index_only w w1 _ Hready Hloop)
        in Hreturn.
      discriminate.
  - rewrite GooglePhotosSyncProofs.download_media_blocked in Hreturn by done.
    discriminate.
Qed.

(** X14. In [index_only] mode [download_media] starts no download and
    writes no file, not even the temporary one. Where the folder is there
    or can be made, it makes the folder when missing, writes the two index
    entries of the item and returns the target name. Where the folder
    cannot be made, a file being under its name or under a folder above
    it, [os.makedirs] raises and nothing is changed: no index entry is
    written. *)
Theorem download_media_index_only w :
  let target_filename := os_path_join path (filename media) in
  if folder_ready path w then
    ∃ w',
      download_media drive true media path progress_handler w
        = (w', Return target_filename) ∧
      files w' = files w ∧ requests w' = requests w ∧
      progress w' = progress w ∧
      dirs w' = dirs (with_folder path w) ∧ os_path_isdir path w' = true ∧
      db w' = indexed media target_filename (db w)
  else
    download_media drive true media path progress_handler w
      = (w, Raise OSError).
Proof.
  intros target_filename.
  destruct (folder_ready path w) eqn:Hready;
    [|by apply GooglePhotosSyncProofs.download_media_blocked].
  eexists. split.
  - by apply (download_media_indexes true w).
  - unfold ret. simpl.
    destruct (GooglePhotosSyncProofs.makedirs_keeps path w)
      as (Hfiles & Hdb & Hrequests).
    rewrite Hdb. split; [done|]. split; [done|].
    split; [unfold with_folder; by destruct (os_path_isdir path w)|].
    split; [done|].
    split; [apply GooglePhotosSyncProofs.with_folder_isdir|done].
Qed.


Lemma truthy_singleton (k v : string) :
  truthy (Some ({[k := v]} : record)) = true.
Proof.
  simpl. rewrite bool_decide_eq_false_2; [done|].
  apply insert_non_empty.
Qed.

(** X16. What [download_media] indexed is found again: in the world it
    leaves when it returns, [is_indexed] answers [True] at once for the
    same media and path, the duplicate number untouched; and so does
    [has_local_version] when the target file is on disk and the id of the
    media is not itself the target name. *)
Theorem download_media_then_checks (index_only : bool) w w' name
    (fuel : nat) :
  let target_filename := os_path_join path (filename media) in
  download_media drive index_only media path progress_handler w
    = (w', Return name) →
  is_indexed (S fuel) w' path media = Some (media, Return true) ∧
  (is_Some (files w' !! target_filename) →
   id media ≠ target_filename →
   has_local_version (S fuel) w' path media = Some (media, Return true)).
Proof.
  intros target_filename Hreturn.
  assert (db w' = indexed media target_filename (db w)) as Hdb.
  { by destruct (download_media_returned index_only w w' name Hreturn). }
  split.
  - simpl. fold target_filename. unfold db_get. rewrite Hdb. unfold indexed.
    rewrite lookup_insert_eq, truthy_singleton. simpl.
    unfold getitem. rewrite lookup_singleton_eq.
    by rewrite bool_decide_eq_true_2.
  - intros Hfile Hid. simpl. fold target_filename.
    unfold os_path_isfile. rewrite bool_decide_eq_true_2 by done.
    unfold db_get. rewrite Hdb. unfold indexed.
    rewrite lookup_insert_ne, lookup_insert_eq by done.
    assert (truthy (Some (<["checksum":=checksum media]>
                           (<["description":=description media]>
                              ({["filename" := target_filename]} : record))))
            = true) as ->.
    { simpl. rewrite bool_decide_eq_false_2; [done|].
      apply insert_non_empty. }
    simpl. unfold getitem.
    rewrite !lookup_insert_ne, lookup_singleton_eq by done.
    by rewrite bool_decide_eq_true_2.
Qed.

End DownloadMore.

Section ChecksAnswer.

Implicit Types (w : World) (media : Media).

Lemma set_duplicate_number_same media :
  media = set_duplicate_number media (duplicate_number media).
Proof. by destruct media. Qed.

Lemma truthy_record (value : option record) :
  truthy value = true → ∃ r, value = Some r.
Proof. destruct value as [r|]; [by exists r|done]. Qed.

(** X17. What an answer of [is_indexed] says and where it leaves the
    media. The media comes back with a duplicate number not below the one
    it had, and nothing else changed; under every number passed over, the
    index holds the local name for another id; and the answer is [True]
    when the index holds the name of the final number for this id, [False]
    when it holds no (truthy) record for that name. *)
Theorem is_indexed_answer (fuel : nat) :
  ∀ w path media media' (answer : bool),
    is_indexed fuel w path media = Some (media', Return answer) →
    media' = set_duplicate_number media (duplicate_number media') ∧
    (duplicate_number media ≤ duplicate_number media')%Z ∧
    (∀ n, (duplicate_number media ≤ n < duplicate_number media')%Z →
       ∃ r i, db w !! local_name path media n = Some r ∧
              r !! "id" = Some i ∧ i ≠ id media) ∧
    (if answer
     then ∃ r, db w !! local_name path media (duplicate_number media')
                 = Some r ∧ r !! "id" = Some (id media)
     else truthy (db w !! local_name path media (duplicate_number media'))
          = false).
Proof.
  induction fuel as [|fuel IH]; intros w path media media' answer; [done|].
  simpl. unfold db_get.
  change (os_path_join path (filename media))
    with (local_name path media (duplicate_number media)).
  destruct (truthy (db w !! local_name path media (duplicate_number media)))
    eqn:Htruthy.
  - destruct (truthy_record _ Htruthy) as [r Hr]. rewrite Hr. simpl.
    unfold getitem. destruct (r !! "id") as [i|] eqn:Hi; [|done].
    case_bool_decide as Hid.
    + intros [= <- <-]. split; [apply set_duplicate_number_same|].
      split; [lia|]. split; [intros n Hn; lia|]. exists r. by subst i.
    + intros (Heq & Hle & Hpassed & Hfinal)%IH. simpl in Hle.
      split; [exact Heq|]. split; [lia|]. split; [|exact Hfinal].
      intros n Hn.
      destruct (decide (n = duplicate_number media)) as [->|Hne].
      * by exists r, i.
      * apply Hpassed. simpl. lia.
  - intros [= <- <-]. split; [apply set_duplicate_number_same|].
    split; [lia|]. split; [intros n Hn; lia|done].
Qed.

(** X18. What an answer of [has_local_version] says and where it leaves
    the media. The duplicate number has not decreased and nothing else
    changed; every number passed over names a file on disk that the index
    does not hold as the file of this id; and the answer is [True] when
    the name of the final number is a file on disk that the index holds as
    the file of this id, [False] when that name is no file on disk. *)
Theorem has_local_version_answer (fuel : nat) :
  ∀ w path media media' (answer : bool),
    has_local_version fuel w path media = Some (media', Return answer) →
    media' = set_duplicate_number media (duplicate_number media') ∧
    (duplicate_number media ≤ duplicate_number media')%Z ∧
    (∀ n, (duplicate_number media ≤ n < duplicate_number media')%Z →
       is_Some (files w !! local_name path media n) ∧
       ¬ ∃ r, db w !! id media = Some r ∧
              r !! "filename" = Some (local_name path media n)) ∧
    (if answer
     then is_Some (files w !! local_name path media
                                (duplicate_number media')) ∧
          ∃ r, db w !! id media = Some r ∧
               r !! "filename"
                 = Some (local_name path media (duplicate_number media'))
     else files w !! local_name path media (duplicate_number media')
          = None).
Proof.
  induction fuel as [|fuel IH]; intros w path media media' answer; [done|].
  simpl. unfold db_get, os_path_isfile.
  change (os_path_join path (filename media))
    with (local_name path media (duplicate_number media)).
  set (here := local_name path media (duplicate_number media)).
  assert (∀ media2 (answer2 : bool),
    is_Some (files w !! here) →
    (¬ ∃ r, db w !! id media = Some r ∧ r !! "filename" = Some here) →
    has_local_version fuel w path (bump media)
      = Some (media2, Return answer2) →
    media2 = set_duplicate_number media (duplicate_number media2) ∧
    (duplicate_number media ≤ duplicate_number media2)%Z ∧
    (∀ n, (duplicate_number media ≤ n < duplicate_number media2)%Z →
       is_Some (files w !! local_name path media n) ∧
       ¬ ∃ r, db w !! id media = Some r ∧
              r !! "filename" = Some (local_name path media n)) ∧
    (if answer2
     then is_Some (files w !! local_name path media
                                (duplicate_number media2)) ∧
          ∃ r, db w !! id media = Some r ∧
               r !! "filename"
                 = Some (local_name path media (duplicate_number media2))
     else files w !! local_name path media (duplicate_number media2)
          = None)) as Hnext.
  { intros media2 answer2 Hfile Hnot
      (Heq & Hle & Hpassed & Hfinal)%IH. simpl in Hle.
    split; [exact Heq|]. split; [lia|]. split; [|exact Hfinal].
    intros n Hn. destruct (decide (n = duplicate_number media)) as [->|Hne].
    - done.
    - apply Hpassed. simpl. lia. }
  case_bool_decide as Hfile.
  - destruct (truthy (db w !! id media)) eqn:Htruthy.
    + destruct (truthy_record _ Htruthy) as [r Hr]. rewrite Hr. simpl.
      unfold getitem. destruct (r !! "filename") as [f|] eqn:Hf; [|done].
      case_bool_decide as Hsame.
      * intros [= <- <-]. split; [apply set_duplicate_number_same|].
        split; [lia|]. split; [intros n Hn; lia|].
        split; [done|]. exists r. by subst f.
      * rewrite <-Hr. apply Hnext; [done|].
        intros (r' & Hr' & Hf'). congruence.
    + apply Hnext; [done|]. intros (r & Hr & Hf). rewrite Hr in Htruthy.
      simpl in Htruthy. apply negb_false_iff, bool_decide_eq_true_1 in Htruthy.
      subst r. by rewrite lookup_empty in Hf.
  - intros [= <- <-]. split; [apply set_duplicate_number_same|].
    split; [lia|]. split; [intros n Hn; lia|].
    by apply eq_None_not_Some.
Qed.

End ChecksAnswer.

Section Listing.

Implicit Types (args : Args) (make : record → Media).

Lemma yield_medias_all make (drive_files : list record) :
  yield_medias true make drive_files = (make <$> drive_files, None).
Proof.
  induction drive_files as [|f l IH]; [done|]. simpl. by rewrite IH.
Qed.

Lemma yield_medias_no_video make (drive_files : list record) :
  ∀ m, m ∈ (yield_medias false make drive_files).1 →
       ∃ f, f ∈ drive_files ∧ m = make f ∧ is_Some (f !! "mimeType")
            ∧ is_video f = false.
Proof.
  induction drive_files as [|f l IH]; intros m; simpl.
  - by intros ?%elem_of_nil.
  - unfold getitem, is_video in *.
    destruct (f !! "mimeType") as [mime|] eqn:Hmime;
      [|by intros ?%elem_of_nil].
    destruct (String.prefix "video/" mime) eqn:Hvideo.
    + intros (f' & Hin & Hf')%IH. exists f'. split; [by right|done].
    + destruct (yield_medias false make l) as [medias e]. simpl in *.
      intros [->|Hin]%elem_of_cons.
      * exists f. rewrite Hmime. split; [left|]. by split.
      * destruct (IH m Hin) as (f' & Hin' & Hf'). exists f'.
        split; [by right|done].
Qed.

Lemma yield_medias_typed make (drive_files : list record) :
  Forall (λ f, is_Some (f !! "mimeType")) drive_files →
  yield_medias false make drive_files
  = (make <$> filter (λ f, is_video f = false) drive_files, None).
Proof.
  induction drive_files as [|f l IH]; intros Htyped; [done|].
  apply Forall_cons in Htyped as [[mime Hmime] Htyped].
  simpl. unfold getitem. rewrite Hmime.
  destruct (String.prefix "video/" mime) eqn:Hvideo.
  - rewrite filter_cons_False
      by (unfold is_video; rewrite Hmime, Hvideo; done).
    by apply IH.
  - rewrite filter_cons_True by (unfold is_video; by rewrite Hmime).
    by rewrite (IH Htyped).
Qed.

(** X19. What [get_remote_medias] lists. With [include_video] it yields
    every file of every page, in order, and does not raise. Without it no
    video is yielded: every media yielded is made of a listed file that
    has a mime type not starting with [video/], and when every listed
    file has a mime type these are all of them, in order. The query
    carries one date bound at most: with a start date given, the end date
    plays no part. *)
Theorem get_remote_medias_lists (listing : Listing) args make folder_id :
  let drive_files :=
    concat (listing (add_date_filter args (MEDIA_QUERY folder_id))) in
  (include_video args = true →
   get_remote_medias listing args make folder_id
     = (make <$> drive_files, None)) ∧
  (include_video args = false →
   (∀ m, m ∈ (get_remote_medias listing args make folder_id).1 →
         ∃ f, f ∈ drive_files ∧ m = make f ∧ is_Some (f !! "mimeType")
              ∧ is_video f = false) ∧
   (Forall (λ f, is_Some (f !! "mimeType")) drive_files →
    get_remote_medias listing args make folder_id
      = (make <$> filter (λ f, is_video f = false) drive_files, None))) ∧
  (LocalData.text_truthy (start_date args) = true →
   ∀ other_end,
     get_remote_medias listing args make folder_id
     = get_remote_medias listing
         {| start_date := start_date args; end_date := other_end;
            include_video := include_video args |} make folder_id).
Proof.
  intros drive_files. unfold get_remote_medias. fold drive_files.
  split; [|split].
  - intros ->. apply yield_medias_all.
  - intros ->. split; [apply yield_medias_no_video|apply yield_medias_typed].
  - intros Hstart other_end. subst drive_files.
    unfold add_date_filter. simpl. by rewrite Hstart.
Qed.

Lemma split1_whole (name : string) :
  has_sep name = false → split1 name = (name, None).
Proof.
  induction name as [|c name IH]; [done|]. simpl.
  intros [Hc Hname]%orb_false_iff. rewrite Hc. by rewrite (IH Hname).
Qed.

Lemma split1_first (part rest : string) :
  has_sep part = false →
  split1 (part +:+ "/" +:+ rest) = (part, Some rest).
Proof.
  induction part as [|c part IH]; [done|]. simpl.
  intros [Hc Hpart]%orb_false_iff. rewrite Hc.
  by rewrite (IH Hpart).
Qed.

Lemma get_remote_folder_one (listing : Listing) parent_id name :
  has_sep name = false →
  get_remote_folder listing parent_id name
  = first_ids (listing (FOLDER_QUERY name (py_str parent_id))) None.
Proof.
  intros Hname%split1_whole.
  funelim (get_remote_folder listing parent_id name); congruence.
Qed.

Lemma get_remote_folder_next (listing : Listing) parent_id part rest :
  has_sep part = false →
  get_remote_folder listing parent_id (part +:+ "/" +:+ rest)
  = match get_remote_folder listing parent_id part with
    | Raise e => Raise e
    | Return this_folder_id => get_remote_folder listing this_folder_id rest
    end.
Proof.
  intros Hpart.
  rewrite (get_remote_folder_one listing parent_id part Hpart).
  pose proof (split1_first part rest Hpart) as Hsplit.
  remember (part +:+ "/" +:+ rest) as name eqn:Hname. clear Hname.
  funelim (get_remote_folder listing parent_id name).
  all: match goal with
       | H1 : split1 ?n = (?p1, ?r1), H2 : split1 ?n = (?p2, ?r2) |- _ =>
           assert ((p1, r1) = (p2, r2)) as Hsame by congruence
       end.
  all: try discriminate.
  all: injection Hsame as -> ->.
  all: match goal with H : first_ids _ _ = _ |- _ => by rewrite H end.
Qed.

(** The loop over the pages, every page having a first result with an id:
    the id of the first result of the last page, or what was there before
    when there is no page. *)
Lemma first_ids_last (pages : list (list record)) :
  ∀ this_folder_id,
    Forall (λ page, is_Some (first_result_id page)) pages →
    first_ids pages this_folder_id
    = Return (match last pages ≫= first_result_id with
              | Some i => Some i
              | None => this_folder_id
              end).
Proof.
  induction pages as [|page pages IH]; intros this_folder_id Hpages; [done|].
  apply Forall_cons in Hpages as [[i Hi] Hpages].
  destruct page as [|item page]; [done|].
  assert (item !! "id" = Some i) as Hid by exact Hi.
  cbn [first_ids first_item]. unfold getitem. rewrite Hid.
  rewrite (IH (Some i) Hpages).
  destruct pages as [|page' pages].
  - simpl. unfold first_result_id. simpl. by rewrite Hid.
  - rewrite last_cons_cons.
    destruct (last (page' :: pages)) as [x|] eqn:Hlast.
    + apply last_Some_elem_of in Hlast. rewrite Forall_forall in Hpages.
      destruct (Hpages x Hlast) as [j Hj]. simpl. by rewrite Hj.
    + by apply last_None in Hlast.
Qed.

(** The loop over the pages, up to the first page without a first result
    that has an id: the subscript that fails raises. *)
Lemma first_ids_raises (before after : list (list record)) page :
  ∀ this_folder_id,
    Forall (λ page, is_Some (first_result_id page)) before →
    first_result_id page = None →
    first_ids (before ++ page :: after) this_folder_id
    = Raise (if bool_decide (page = []) then IndexError else KeyError "id").
Proof.
  induction before as [|page' before IH]; intros this_folder_id Hbefore Hpage.
  - destruct page as [|item page]; [done|].
    assert (item !! "id" = None) as Hid by exact Hpage.
    simpl. unfold getitem. by rewrite Hid.
  - apply Forall_cons in Hbefore as [[i Hi] Hbefore].
    destruct page' as [|item page']; [done|].
    assert (item !! "id" = Some i) as Hid by exact Hi.
    simpl. unfold getitem. rewrite Hid. by apply IH.
Qed.

(** A path of several folders is walked from the left, each folder looked
    up under what the one before resolved to. *)
Lemma get_remote_folder_walk (listing : Listing) (parts : list string) :
  ∀ part parent_id,
    Forall (λ part, has_sep part = false) (part :: parts) →
    get_remote_folder listing parent_id (String.concat "/" (part :: parts))
    = foldl (λ found part,
               match found with
               | Raise e => Raise e
               | Return this_folder_id =>
                   get_remote_folder listing this_folder_id part
               end)
            (Return parent_id) (part :: parts).
Proof.
  induction parts as [|part' parts IH]; intros part parent_id Hparts;
    [done|].
  apply Forall_cons in Hparts as [Hpart Hparts].
  change (String.concat "/" (part :: part' :: parts))
    with (part +:+ "/" +:+ String.concat "/" (part' :: parts)).
  rewrite get_remote_folder_next by done.
  cbn [foldl].
  destruct (get_remote_folder listing parent_id part) as [this_folder_id|e].
  - by rewrite (IH part' this_folder_id Hparts).
  - clear. induction parts as [|p l IHl]; [done|exact IHl].
Qed.

(** X20. [get_remote_folder] resolves a path one folder at a time, from
    the left. A name without separator is looked up under the parent by
    one query, in which a parent that is [None] is written [None]: when
    every page of the answer has a first result with an id, the answer is
    the id of the first result of the last page, and [None] for no page;
    the first page that has no result raises [IndexError], and the first
    page whose first result has no id raises [KeyError]. A path of several
    names is walked from the left: each name is looked up under what the
    one before resolved to, also when that is [None], and an exception of
    a lookup ends the whole. *)
Theorem get_remote_folder_steps (listing : Listing) parent_id :
  (∀ name,
     has_sep name = false →
     let pages :=
       listing (FOLDER_QUERY name (default "None" parent_id)) in
     (Forall (λ page, is_Some (first_result_id page)) pages →
      get_remote_folder listing parent_id name
      = Return (last pages ≫= first_result_id)) ∧
     (∀ before page after,
        pages = before ++ page :: after →
        Forall (λ page, is_Some (first_result_id page)) before →
        first_result_id page = None →
        get_remote_folder listing parent_id name
        = Raise (if bool_decide (page = [])
                 then IndexError else KeyError "id"))) ∧
  (∀ part parts,
     Forall (λ part, has_sep part = false) (part :: parts) →
     get_remote_folder listing parent_id (String.concat "/" (part :: parts))
     = foldl (λ found part,
                match found with
                | Raise e => Raise e
                | Return this_folder_id =>
                    get_remote_folder listing this_folder_id part
                end)
             (Return parent_id) (part :: parts)).
Proof.
  split.
  - intros name Hname pages.
    rewrite (get_remote_folder_one listing parent_id name Hname).
    change (listing (FOLDER_QUERY name (py_str parent_id))) with pages.
    split.
    + intros Hpages. rewrite (first_ids_last pages None Hpages).
      by destruct (last pages ≫= first_result_id).
    + intros before page after -> Hbefore Hpage.
      by apply first_ids_raises.
  - intros part parts. apply get_remote_folder_walk.
Qed.

End Listing.

(** ** The further properties at work on the example worlds *)

Example split1_of_a_path :
  split1 "2021/06/x" = ("2021", Some "06/x") ∧ split1 "x" = ("x", None)
  ∧ split1 "" = ("", None) ∧ split1 "a/" = ("a", Some "").
Proof. repeat split. Qed.

Example get_remote_folder_of_a_path :
  get_remote_folder a_listing (Some "root") "2021/06"
    = Return (Some "folder-06")
  ∧ get_remote_folder a_listing (Some "root") "2022/06" = Return None.
Proof.
  split.
  - change "2021/06" with ("2021" +:+ "/" +:+ "06").
    rewrite get_remote_folder_next by done.
    by rewrite !get_remote_folder_one.
  - change "2022/06" with ("2022" +:+ "/" +:+ "06").
    rewrite get_remote_folder_next by done.
    by rewrite !get_remote_folder_one.
Qed.

Example get_remote_medias_of_a_folder :
  id <$> (get_remote_medias a_listing
            {| start_date := None; end_date := None;
               include_video := false |} media_of "folder-06").1
    = ["id-1"]
  ∧ id <$> (get_remote_medias a_listing
              {| start_date := None; end_date := None;
                 include_video := true |} media_of "folder-06").1
    = ["id-1"; "id-2"].
Proof. split; vm_compute; reflexivity. Qed.

Example folders_above_a_name :
  folders_above "/photos/2021/06" = ["/photos"; "/photos/2021"]
  ∧ folders_above "photos/2021" = ["photos"]
  ∧ folders_above "/photos" = [] ∧ folders_above "/photos/" = ["/photos"].
Proof. repeat split. Qed.

Example download_media_folder_is_a_file :
  download_media flaky_drive true a_photo "/photos" false blocked_world
    = (blocked_world, Raise OSError)
  ∧ download_media flaky_drive false a_photo "/photos" false blocked_world
    = (blocked_world, Raise OSError)
  ∧ download_media flaky_drive false a_photo "/photos/2021" false
      blocked_world
    = (blocked_world, Raise OSError).
Proof. repeat split; vm_compute; reflexivity. Qed.

Example download_media_target_is_a_folder :
  (download_media flaky_drive false a_photo "/photos" false
     folder_named_world).2 = Raise OSError
  ∧ db (download_media flaky_drive false a_photo "/photos" false
          folder_named_world).1 = ∅
  ∧ requests (download_media flaky_drive false a_photo "/photos" false
                folder_named_world).1 = 3.
Proof. repeat split; vm_compute; reflexivity. Qed.

Example download_media_temp_is_a_folder :
  (download_media flaky_drive false a_photo "/photos" false
     temp_named_world).2 = Return "/photos/IMG_0001.jpg"
  ∧ requests (download_media flaky_drive false a_photo "/photos" false
                temp_named_world).1 = 0
  ∧ files (download_media flaky_drive false a_photo "/photos" false
             temp_named_world).1 = ∅
  ∧ is_indexed 1 (download_media flaky_drive false a_photo "/photos" false
                    temp_named_world).1 "/photos" a_photo
    = Some (a_photo, Return true).
Proof. repeat split; vm_compute; reflexivity. Qed.

Lemma is_indexed_answer_witness :
  truthy (db taken_world !! local_name "/photos" a_photo 1) = false
  ∧ ∃ r i, db taken_world !! local_name "/photos" a_photo 0 = Some r
           ∧ r !! "id" = Some i ∧ i ≠ "id-1".
Proof.
  destruct (is_indexed_answer 3 taken_world "/photos" a_photo
              (bump a_photo) false) as (_ & _ & Hpassed & Hfree).
  - vm_compute. reflexivity.
  - split; [exact Hfree|]. apply (Hpassed 0%Z). simpl. lia.
Defined.

Lemma has_local_version_answer_witness :
  files taken_world !! local_name "/photos" a_photo 1 = None
  ∧ is_Some (files taken_world !! local_name "/photos" a_photo 0).
Proof.
  destruct (has_local_version_answer 3 taken_world "/photos" a_photo
              (bump a_photo) false) as (_ & _ & Hpassed & Hfree).
  - vm_compute. reflexivity.
  - split; [exact Hfree|]. apply (Hpassed 0%Z). simpl. lia.
Defined.

Lemma download_media_then_checks_witness :
  is_indexed 1
    (download_media flaky_drive false a_photo "/photos" false empty_world).1
    "/photos" a_photo = Some (a_photo, Return true)
  ∧ has_local_version 1
      (download_media flaky_drive false a_photo "/photos" false empty_world).1
      "/photos" a_photo = Some (a_photo, Return true).
Proof.
  destruct (download_media_then_checks flaky_drive a_photo "/photos" false
              false empty_world
              (download_media flaky_drive false a_photo "/photos" false
                 empty_world).1
              "/photos/IMG_0001.jpg" 0) as [Hindexed Hlocal].
  - vm_compute. reflexivity.
  - split; [exact Hindexed|]. apply Hlocal.
    + exists [Byte.x89; Byte.x50]. vm_compute. reflexivity.
    + intros Heq. vm_compute in Heq. discriminate Heq.
Defined.

End GooglePhotosSyncExtras.
